(** * strict-csp: a shallow embedding of [StrictCsp] and its properties

    The development follows the TypeScript class [StrictCsp]:
    - [Js]        the fragment of JavaScript the class relies on: arrays that
                  live in a store and are reached through references, objects
                  as ordered property lists, truthiness of optional booleans;
    - [Policy]    [getStrictCsp], the policy builder;
    - [Sha256], [Base64]  what [crypto.createHash('sha256')...digest('base64')]
                  computes;
    - [Hasher]    [hashInlineObject];
    - [Loader]    [createLoaderScript];
    - [Dom]       the tree the document adapter hands to the class, and the
                  selection and manipulation calls used on it;
    - [Rewriter]  [addMetaTag], [refactorSourcedScriptsForHashBasedCsp],
                  [hashAllInlineScripts], [hashAllInlineStyles];
    - [Documents] the documents the properties are tried on.

    The properties follow, one section for each of these parts. *)

From Stdlib Require Import String Ascii List ZArith Lia Bool Arith.
Import ListNotations.

Local Open Scope string_scope.
Local Open Scope list_scope.

(** ** JavaScript fragment *)

Module Js.

(** [Array.prototype.join] on an array of strings. *)
Definition join (sep : string) (a : list string) : string := String.concat sep a.

(** An optional boolean property read in a condition: [undefined] and
    [false] are falsy, [true] is truthy. *)
Definition truthy (b : option bool) : bool :=
  match b with
  | Some true => true
  | _ => false
  end.

(** [x || d] for an optional array: an array (even empty) is truthy. *)
Definition or_default {A : Type} (x : option A) (d : A) : A :=
  match x with
  | Some v => v
  | None => d
  end.

(** Arrays are objects: they live in a store and values hold references to
    them, so two properties may share one array. *)
Definition ref := nat.
Definition store := list (list string).

(** A computation over the store that may throw. *)
Definition M (A : Type) : Type := store -> option (A * store).

Definition ret {A : Type} (x : A) : M A := fun s => Some (x, s).

Definition bind {A B : Type} (m : M A) (k : A -> M B) : M B :=
  fun s =>
    match m s with
    | Some (x, s') => k x s'
    | None => None
    end.

Definition throw {A : Type} : M A := fun _ => None.

Definition run {A : Type} (m : M A) : option A :=
  match m [] with
  | Some (x, _) => Some x
  | None => None
  end.

(** An array literal allocates a new array. *)
Definition alloc (a : list string) : M ref :=
  fun s => Some (length s, s ++ [a]).

Definition read (r : ref) : M (list string) :=
  fun s =>
    match nth_error s r with
    | Some a => Some (a, s)
    | None => None
    end.

Fixpoint set_nth {A : Type} (n : nat) (x : A) (l : list A) : list A :=
  match l, n with
  | [], _ => []
  | _ :: t, O => x :: t
  | y :: t, S m => y :: set_nth m x t
  end.

(** [Array.prototype.push]: the array is changed in place, every holder of
    the reference sees the new element. *)
Definition push (r : ref) (v : string) : M unit :=
  fun s =>
    match nth_error s r with
    | Some a => Some (tt, set_nth r (a ++ [v]) s)
    | None => None
    end.

(** An object with string keys: its own properties in insertion order. *)
Definition object := list (string * ref).

Fixpoint get (o : object) (k : string) : option ref :=
  match o with
  | [] => None
  | (k', v) :: o' => if String.eqb k' k then Some v else get o' k
  end.

(** [o[k] = v]: an existing key keeps its place, a new one goes last. *)
Fixpoint set (o : object) (k : string) (v : ref) : object :=
  match o with
  | [] => [(k, v)]
  | (k', v') :: o' =>
      if String.eqb k' k then (k', v) :: o' else (k', v') :: set o' k v
  end.

(** [{...a, ...b}]: a new object; the property values (references) are
    copied, the arrays they point to are not. *)
Definition spread (a b : object) : object :=
  fold_left (fun o kv => set o (fst kv) (snd kv)) (a ++ b) [].

(** [o[k].push(v)]; throws a TypeError when [o[k]] is [undefined]. *)
Definition push_at (o : object) (k : string) (v : string) : M unit :=
  match get o k with
  | Some r => push r v
  | None => throw
  end.

(** [Object.entries(o)] with every array read from the store. *)
Fixpoint entries (o : object) : M (list (string * list string)) :=
  match o with
  | [] => ret []
  | (k, r) :: o' =>
      bind (read r) (fun a =>
      bind (entries o') (fun rest => ret ((k, a) :: rest)))
  end.

End Js.

Declare Scope js_scope.
Delimit Scope js_scope with js.
Notation "x <- m ;; k" := (Js.bind m (fun x => k))
  (at level 61, m at next level, right associativity) : js_scope.
Notation "m ;;; k" := (Js.bind m (fun _ => k))
  (at level 61, right associativity) : js_scope.

(** ** Policy builder *)

Module Policy.
Import Js.
Local Open Scope js_scope.

Record CspOptions : Type := mkCspOptions {
  enableBrowserFallbacks : option bool;
  enableTrustedTypes : option bool;
  enableUnsafeEval : option bool
}.

(** The default value of the parameter [cspOptions]; it replaces the
    argument only when the whole argument is omitted. *)
Definition defaultCspOptions : CspOptions :=
  {| enableBrowserFallbacks := Some true;
     enableTrustedTypes := Some false;
     enableUnsafeEval := Some false |}.

(** Lines 70-110 of [getStrictCsp]: the template object as it stands just
    before it is serialised. *)
Definition strictCspTemplate
    (scriptHashes styleHashes : option (list string))
    (cspOptions : option CspOptions) : M object :=
  let cspOptions := or_default cspOptions defaultCspOptions in
  let scriptHashes := or_default scriptHashes [] in
  let styleHashes := or_default styleHashes [] in
  script_src <- alloc ("'strict-dynamic'" :: scriptHashes) ;;
  style_src <- alloc styleHashes ;;
  object_src <- alloc ["'none'"] ;;
  base_uri <- alloc ["'self'"] ;;
  let strictCspTemplate : object :=
    [("script-src", script_src); ("style-src", style_src);
     ("object-src", object_src); ("base-uri", base_uri)] in
  (if truthy (enableBrowserFallbacks cspOptions) then
     push_at strictCspTemplate "script-src" "https:" ;;;
     if (0 <? length scriptHashes)%nat then
       push_at strictCspTemplate "script-src" "'unsafe-inline'"
     else ret tt
   else ret tt) ;;;
  strictCspTemplate <-
    (if truthy (enableTrustedTypes cspOptions) then
       rtt <- alloc ["'script'"] ;;
       ret (spread strictCspTemplate [("require-trusted-types-for", rtt)])
     else ret strictCspTemplate) ;;
  (if truthy (enableUnsafeEval cspOptions) then
     push_at strictCspTemplate "script-src" "'unsafe-eval'"
   else ret tt) ;;;
  ret strictCspTemplate.

(** The callback of [.map] at lines 113-115. *)
Definition segment (entry : string * list string) : string :=
  (fst entry ++ " " ++ join " " (snd entry) ++ ";")%string.

(** The directive set at the point of serialisation. *)
Definition directives
    (scriptHashes styleHashes : option (list string))
    (cspOptions : option CspOptions) : option (list (string * list string)) :=
  run (t <- strictCspTemplate scriptHashes styleHashes cspOptions ;; entries t).

Definition getStrictCsp
    (scriptHashes styleHashes : option (list string))
    (cspOptions : option CspOptions) : option string :=
  run (t <- strictCspTemplate scriptHashes styleHashes cspOptions ;;
       es <- entries t ;;
       ret (join "" (map segment es))).

(** The tokens of one directive of a directive set. *)
Fixpoint tokens_of (name : string) (ds : list (string * list string))
    : option (list string) :=
  match ds with
  | [] => None
  | (k, v) :: ds' => if String.eqb k name then Some v else tokens_of name ds'
  end.

(** The tokens of the directive [name] at the point of serialisation. *)
Definition directive_tokens (name : string)
    (scriptHashes styleHashes : option (list string))
    (cspOptions : option CspOptions) : option (list string) :=
  match directives scriptHashes styleHashes cspOptions with
  | Some ds => tokens_of name ds
  | None => None
  end.

(** *** The policy as the specification words it *)

Record PolicyOptions : Type := mkPolicyOptions {
  fallbacks : bool;
  trustedTypes : bool;
  unsafeEval : bool
}.

Definition defaults : PolicyOptions :=
  {| fallbacks := true; trustedTypes := false; unsafeEval := false |}.

(** The options as the conditions of lines 87, 99 and 108 read them. *)
Definition effective (cspOptions : option CspOptions) : PolicyOptions :=
  let o := or_default cspOptions defaultCspOptions in
  {| fallbacks := truthy (enableBrowserFallbacks o);
     trustedTypes := truthy (enableTrustedTypes o);
     unsafeEval := truthy (enableUnsafeEval o) |}.

Definition options_of (o : PolicyOptions) : CspOptions :=
  {| enableBrowserFallbacks := Some (fallbacks o);
     enableTrustedTypes := Some (trustedTypes o);
     enableUnsafeEval := Some (unsafeEval o) |}.

Definition fallback_tokens (scriptHashes : list string) (on : bool) : list string :=
  if on then
    "https:" :: (match scriptHashes with [] => [] | _ :: _ => ["'unsafe-inline'"] end)
  else [].

Definition eval_tokens (on : bool) : list string :=
  if on then ["'unsafe-eval'"] else [].

Definition spec_script_src (scriptHashes : list string) (o : PolicyOptions)
    : list string :=
  "'strict-dynamic'" :: scriptHashes
    ++ fallback_tokens scriptHashes (fallbacks o)
    ++ eval_tokens (unsafeEval o).

(** Directives in insertion order, section 4.2 steps 1-6. *)
Definition spec_directives (scriptHashes styleHashes : list string)
    (o : PolicyOptions) : list (string * list string) :=
  [("script-src", spec_script_src scriptHashes o);
   ("style-src", styleHashes);
   ("object-src", ["'none'"]);
   ("base-uri", ["'self'"])]
  ++ (if trustedTypes o then [("require-trusted-types-for", ["'script'"])] else []).

(** ["<name> <token1> <token2> ...;"] *)
Definition spec_segment (name : string) (tokens : list string) : string :=
  (name ++ " " ++ String.concat " " tokens ++ ";")%string.

(** Step 7: the segments one after the other, nothing in between. *)
Fixpoint spec_serialize (ds : list (string * list string)) : string :=
  match ds with
  | [] => ""
  | (name, tokens) :: ds' => (spec_segment name tokens ++ spec_serialize ds')%string
  end.

Definition buildPolicy (scriptHashes styleHashes : list string)
    (o : PolicyOptions) : string :=
  spec_serialize (spec_directives scriptHashes styleHashes o).

End Policy.

(** ** SHA-256 (FIPS 180-4), the digest behind [crypto.createHash('sha256')] *)

Module Sha256.
Local Open Scope Z_scope.

(** 32-bit words are integers in [0, 2^32); every operation that can leave
    that range is reduced modulo [2^32]. *)
Definition wrap (x : Z) : Z := x mod 2 ^ 32.
Definition add (x y : Z) : Z := wrap (x + y).
Definition rotr (n x : Z) : Z := Z.lor (Z.shiftr x n) (wrap (Z.shiftl x (32 - n))).
Definition shr (n x : Z) : Z := Z.shiftr x n.
Definition not32 (x : Z) : Z := Z.lxor x (2 ^ 32 - 1).

Definition Ch (x y z : Z) : Z := Z.lxor (Z.land x y) (Z.land (not32 x) z).
Definition Maj (x y z : Z) : Z :=
  Z.lxor (Z.lxor (Z.land x y) (Z.land x z)) (Z.land y z).
Definition bsig0 (x : Z) : Z := Z.lxor (Z.lxor (rotr 2 x) (rotr 13 x)) (rotr 22 x).
Definition bsig1 (x : Z) : Z := Z.lxor (Z.lxor (rotr 6 x) (rotr 11 x)) (rotr 25 x).
Definition ssig0 (x : Z) : Z := Z.lxor (Z.lxor (rotr 7 x) (rotr 18 x)) (shr 3 x).
Definition ssig1 (x : Z) : Z := Z.lxor (Z.lxor (rotr 17 x) (rotr 19 x)) (shr 10 x).

(** The constants are fractional parts of roots of the first primes. *)
Definition primes : list Z :=
  [2; 3; 5; 7; 11; 13; 17; 19; 23; 29; 31; 37; 41; 43; 47; 53;
   59; 61; 67; 71; 73; 79; 83; 89; 97; 101; 103; 107; 109; 113; 127; 131;
   137; 139; 149; 151; 157; 163; 167; 173; 179; 181; 191; 193; 197; 199;
   211; 223; 227; 229; 233; 239; 241; 251; 257; 263; 269; 271; 277; 281;
   283; 293; 307; 311].

(** Integer cube root, one bit at a time from bit [k-1] down. *)
Fixpoint cbrt_bits (k : nat) (n r : Z) : Z :=
  match k with
  | O => r
  | S k' =>
      let c := r + 2 ^ Z.of_nat k' in
      cbrt_bits k' n (if c * c * c <=? n then c else r)
  end.

Definition cbrt (n : Z) : Z := cbrt_bits 40 n 0.

(** First 32 bits of the fractional part of the cube root of each prime. *)
Definition K : list Z :=
  Eval vm_compute in map (fun p => wrap (cbrt (p * 2 ^ 96))) primes.

(** First 32 bits of the fractional part of the square root of each of the
    first eight primes. *)
Definition H0 : list Z :=
  Eval vm_compute in map (fun p => wrap (Z.sqrt (p * 2 ^ 64))) (firstn 8 primes).

(** Padding: a 1 bit, zeros up to 56 modulo 64 bytes, the bit length on
    eight bytes. *)
Definition be_bytes (n : nat) (x : Z) : list Z :=
  map (fun i => Z.shiftr x (8 * Z.of_nat i) mod 256) (rev (seq 0 n)).

Definition pad (msg : list Z) : list Z :=
  let len := Z.of_nat (length msg) in
  let zeros := Z.to_nat ((55 - len) mod 64) in
  msg ++ [128] ++ repeat 0 zeros ++ be_bytes 8 (8 * len).

Fixpoint be_word (bs : list Z) (acc : Z) : Z :=
  match bs with
  | [] => acc
  | b :: bs' => be_word bs' (acc * 256 + b)
  end.

(** The sixteen words of a 64-byte block. *)
Fixpoint words (n : nat) (bs : list Z) : list Z :=
  match n with
  | O => []
  | S n' => be_word (firstn 4 bs) 0 :: words n' (skipn 4 bs)
  end.

Definition word_at (l : list Z) (i : nat) : Z := nth i l 0.

(** Message schedule: [n] more words after the ones in [W]. *)
Fixpoint schedule (n : nat) (W : list Z) : list Z :=
  match n with
  | O => W
  | S n' =>
      let t := length W in
      let wt := add (add (ssig1 (word_at W (t - 2))) (word_at W (t - 7)))
                    (add (ssig0 (word_at W (t - 15))) (word_at W (t - 16))) in
      schedule n' (W ++ [wt])
  end.

Record vars : Type := mkVars { va : Z; vb : Z; vc : Z; vd : Z;
                               ve : Z; vf : Z; vg : Z; vh : Z }.

Definition round (v : vars) (kw : Z * Z) : vars :=
  let T1 := add (add (add (add (vh v) (bsig1 (ve v))) (Ch (ve v) (vf v) (vg v)))
                     (fst kw)) (snd kw) in
  let T2 := add (bsig0 (va v)) (Maj (va v) (vb v) (vc v)) in
  {| va := add T1 T2; vb := va v; vc := vb v; vd := vc v;
     ve := add (vd v) T1; vf := ve v; vg := vf v; vh := vg v |}.

Definition vars_of (H : list Z) : vars :=
  {| va := word_at H 0; vb := word_at H 1; vc := word_at H 2; vd := word_at H 3;
     ve := word_at H 4; vf := word_at H 5; vg := word_at H 6; vh := word_at H 7 |}.

Definition compress (H : list Z) (block : list Z) : list Z :=
  let W := schedule 48 (words 16 block) in
  let v := fold_left round (combine K W) (vars_of H) in
  [add (word_at H 0) (va v); add (word_at H 1) (vb v);
   add (word_at H 2) (vc v); add (word_at H 3) (vd v);
   add (word_at H 4) (ve v); add (word_at H 5) (vf v);
   add (word_at H 6) (vg v); add (word_at H 7) (vh v)].

Fixpoint blocks (n : nat) (bs : list Z) (H : list Z) : list Z :=
  match n with
  | O => H
  | S n' => blocks n' (skipn 64 bs) (compress H (firstn 64 bs))
  end.

(** The 32 bytes of the digest of a sequence of bytes. *)
Definition digest (msg : list Z) : list Z :=
  let padded := pad msg in
  flat_map (be_bytes 4) (blocks (length padded / 64) padded H0).

End Sha256.

(** ** Base64 (RFC 4648, with padding), the ['base64'] digest encoding *)

Module Base64.
Local Open Scope Z_scope.

Definition alphabet : string :=
  "ABCDEFGHIJKLMNOPQRSTUVWXYZabcdefghijklmnopqrstuvwxyz0123456789+/".

Definition digit (i : Z) : string :=
  match String.get (Z.to_nat i) alphabet with
  | Some c => String c EmptyString
  | None => EmptyString
  end.

Fixpoint encode (bs : list Z) : string :=
  match bs with
  | [] => ""
  | [a] =>
      digit (Z.shiftr a 2) ++ digit (Z.land (Z.shiftl a 4) 63) ++ "=="
  | [a; b] =>
      digit (Z.shiftr a 2)
      ++ digit (Z.land (Z.lor (Z.shiftl a 4) (Z.shiftr b 4)) 63)
      ++ digit (Z.land (Z.shiftl b 2) 63) ++ "="
  | a :: b :: c :: rest =>
      digit (Z.shiftr a 2)
      ++ digit (Z.land (Z.lor (Z.shiftl a 4) (Z.shiftr b 4)) 63)
      ++ digit (Z.land (Z.lor (Z.shiftl b 2) (Z.shiftr c 6)) 63)
      ++ digit (Z.land c 63)
      ++ encode rest
  end%string.

(** The number of groups of four characters for [n] bytes. *)
Fixpoint groups (n : nat) : nat :=
  match n with
  | S (S (S m)) => S (groups m)
  | O => O
  | _ => 1
  end.

End Base64.

(** ** Hasher *)

Module Hasher.

(** A JavaScript string is represented by the bytes of its UTF-8 encoding,
    which is what a Rocq string literal holds; encoding it as ['utf-8']
    lists those bytes. *)
Definition utf8 (text : string) : list Z :=
  map (fun c => Z.of_N (N_of_ascii c)) (list_ascii_of_string text).

(** A byte. *)
Definition byte (b : Z) : Prop := (0 <= b < 256)%Z.

(** A [crypto.Hash] object: the algorithm and the bytes fed so far. *)
Record Hash : Type := mkHash { algorithm : string; fed : list Z }.

(** [crypto.createHash]: throws on a digest name it does not know; of the
    names Node knows, the class uses one. *)
Definition createHash (name : string) : option Hash :=
  if String.eqb name "sha256" then Some {| algorithm := name; fed := [] |}
  else None.

(** [hash.update(data, 'utf-8')] *)
Definition update (h : Hash) (data : string) : Hash :=
  {| algorithm := algorithm h; fed := (fed h ++ utf8 data)%list |}.

(** [hash.digest('base64')] *)
Definition digest_base64 (h : Hash) : string :=
  Base64.encode (Sha256.digest (fed h)).

Definition HASH_FUNCTION : string := "sha256".

Definition hashInlineObject (scriptText : string) : option string :=
  match createHash HASH_FUNCTION with
  | Some h =>
      let hash := digest_base64 (update h scriptText) in
      Some ("'" ++ HASH_FUNCTION ++ "-" ++ hash ++ "'")%string
  | None => None
  end.

(** The hash of section 4.1 as the specification words it: the base64
    encoding of the SHA-256 digest of the UTF-8 bytes, after ['sha256-] and
    between single quotes. *)
Definition hash (text : string) : string :=
  ("'sha256-" ++ Base64.encode (Sha256.digest (utf8 text)) ++ "'")%string.

(** SHA-256 of the empty sequence of bytes, as FIPS 180-4 lists it:
    e3b0c442 98fc1c14 9afbf4c8 996fb924 27ae41e4 649b934c a495991b 7852b855. *)
Definition empty_digest : list Z :=
  [0xe3; 0xb0; 0xc4; 0x42; 0x98; 0xfc; 0x1c; 0x14;
   0x9a; 0xfb; 0xf4; 0xc8; 0x99; 0x6f; 0xb9; 0x24;
   0x27; 0xae; 0x41; 0xe4; 0x64; 0x9b; 0x93; 0x4c;
   0xa4; 0x95; 0x99; 0x1b; 0x78; 0x52; 0xb8; 0x55]%Z.

(** The characters that end a token or a directive of a policy: white space,
    the semicolon, the comma. *)
Definition separator (c : ascii) : bool :=
  Ascii.eqb c " "%char || Ascii.eqb c ";"%char || Ascii.eqb c ","%char
  || Ascii.eqb c (ascii_of_nat 9) || Ascii.eqb c (ascii_of_nat 10)
  || Ascii.eqb c (ascii_of_nat 12) || Ascii.eqb c (ascii_of_nat 13).

Fixpoint no_separator (s : string) : bool :=
  match s with
  | EmptyString => true
  | String c s' => negb (separator c) && no_separator s'
  end.

End Hasher.

(** ** Loader script *)

Module Loader.

(** The line feed of the template literal. *)
Definition LF : string := String (ascii_of_nat 10) EmptyString.

(** [`'${s}'`] *)
Definition quote (s : string) : string := ("'" ++ s ++ "'")%string.

(** [srcList.map((s) => `'${s}'`).join()]: the default separator of [join]
    is a comma. *)
Definition srcListFormatted (srcList : list string) : string :=
  Js.join "," (map quote srcList).

(** The template literal of lines 191-198 around [${srcListFormatted}]. *)
Definition template_head : string :=
  (LF ++ "    var scripts = [")%string.

Definition template_tail : string :=
  ("];" ++ LF
   ++ "    scripts.forEach(function(scriptUrl) {" ++ LF
   ++ "      var s = document.createElement('script');" ++ LF
   ++ "      s.src = scriptUrl;" ++ LF
   ++ "      s.async = false; // preserve execution order." ++ LF
   ++ "      document.body.appendChild(s);" ++ LF
   ++ "    });" ++ LF
   ++ "    ")%string.

Definition createLoaderScript (srcList : list string) : option string :=
  if (length srcList =? 0)%nat then None
  else Some (template_head ++ srcListFormatted srcList ++ template_tail)%string.

(** *** Reading the emitted array literal back

    A scanner for the text between [[] and []] as a JavaScript engine
    tokenises it: a single quote opens a string literal, the next single
    quote that is not escaped closes it, a comma outside a literal separates
    elements.  [scan] returns the characters met outside every literal,
    commas left out. *)
Fixpoint scan (inside escaped : bool) (s : string) : string :=
  match s with
  | EmptyString => EmptyString
  | String c s' =>
      if inside then
        if escaped then scan true false s'
        else if Ascii.eqb c "\"%char then scan true true s'
        else if Ascii.eqb c "'"%char then scan false false s'
        else scan true false s'
      else
        if Ascii.eqb c "'"%char then scan true false s'
        else if Ascii.eqb c ","%char then scan false false s'
        else String c (scan false false s')
  end.

Definition outside_literals (s : string) : string := scan false false s.

(** A source without a single quote and without a backslash. *)
Fixpoint plain (s : string) : bool :=
  match s with
  | EmptyString => true
  | String c s' =>
      negb (Ascii.eqb c "'"%char) && negb (Ascii.eqb c "\"%char) && plain s'
  end.

(** *** Reading the sources back

    The array literal as a JavaScript engine reads it when every element is a
    single-quoted string literal without escapes: literals separated by
    single commas.  [None] stands for every other text: a character outside
    the literals that is neither the quote that opens one nor the comma
    between two, a backslash or a line end inside a literal, a literal left
    open, a comma with no literal after it. *)
Inductive reading : Type :=
| AtStart
| InLiteral (cur : string)
| AfterLiteral
| AfterComma.

Definition ends_line (c : ascii) : bool :=
  Ascii.eqb c (ascii_of_nat 10) || Ascii.eqb c (ascii_of_nat 13).

Fixpoint read_sources (st : reading) (s : string) : option (list string) :=
  match s with
  | EmptyString =>
      match st with
      | AtStart | AfterLiteral => Some []
      | InLiteral _ | AfterComma => None
      end
  | String c s' =>
      match st with
      | AtStart | AfterComma =>
          if Ascii.eqb c "'"%char then read_sources (InLiteral "") s' else None
      | InLiteral cur =>
          if Ascii.eqb c "'"%char then
            option_map (cons cur) (read_sources AfterLiteral s')
          else if Ascii.eqb c "\"%char || ends_line c then None
          else read_sources (InLiteral (cur ++ String c "")) s'
      | AfterLiteral =>
          if Ascii.eqb c ","%char then read_sources AfterComma s' else None
      end
  end.

(** A source that a single-quoted literal holds as it is: no single quote,
    no backslash, no line end. *)
Fixpoint literal_safe (s : string) : bool :=
  match s with
  | EmptyString => true
  | String c s' =>
      negb (Ascii.eqb c "'"%char) && negb (Ascii.eqb c "\"%char)
      && negb (ends_line c) && literal_safe s'
  end.

End Loader.

(** ** Document tree *)

Module Dom.

(** The identity of an element object. *)
Definition handle := nat.

(** [elem.attribs]: attribute names are unique, in insertion order. *)
Definition attribs := list (string * string).

#[local] Unset Elimination Schemes.
Inductive node : Type :=
| Element (id : handle) (name : string) (attrs : attribs) (children : list node)
| Text (data : string)
| Comment (data : string)
| Directive (data : string).
#[local] Set Elimination Schemes.

(** A document: the children of its root. *)
Definition forest := list node.

Fixpoint get_attr (k : string) (a : attribs) : option string :=
  match a with
  | [] => None
  | (k', v) :: a' => if String.eqb k' k then Some v else get_attr k a'
  end.

(** [elem.attribs[k] = v] *)
Fixpoint put_attr (k v : string) (a : attribs) : attribs :=
  match a with
  | [] => [(k, v)]
  | (k', v') :: a' =>
      if String.eqb k' k then (k', v) :: a' else (k', v') :: put_attr k v a'
  end.

(** The selectors the class uses: a tag name and at most one test on an
    attribute. *)
Inductive attr_test : Type :=
| Any
| Has (a : string)
| Lacks (a : string)
| Equals (a v : string).

Record selector : Type := mkSelector { sel_tag : string; sel_test : attr_test }.

Definition test_attrs (t : attr_test) (a : attribs) : bool :=
  match t with
  | Any => true
  | Has k => match get_attr k a with Some _ => true | None => false end
  | Lacks k => match get_attr k a with Some _ => false | None => true end
  | Equals k v =>
      match get_attr k a with Some v' => String.eqb v' v | None => false end
  end.

Definition matches (s : selector) (name : string) (a : attribs) : bool :=
  String.eqb name (sel_tag s) && test_attrs (sel_test s) a.

(** [$(selector)]: the matching elements in document order. *)
Fixpoint select_node (s : selector) (n : node) : list node :=
  match n with
  | Element id name a ch =>
      (if matches s name a then [n] else []) ++ flat_map (select_node s) ch
  | _ => []
  end.

Definition select (s : selector) (d : forest) : list node :=
  flat_map (select_node s) d.

(** All the elements of a document, in document order. *)
Fixpoint elements_node (n : node) : list node :=
  match n with
  | Element _ _ _ ch => n :: flat_map elements_node ch
  | _ => []
  end.

Definition elements (d : forest) : list node := flat_map elements_node d.

Definition matching (s : selector) (n : node) : bool :=
  match n with
  | Element _ name a _ => matches s name a
  | _ => false
  end.

(** Induction on a node with the property at hand for every child. *)
Section NodeInduction.
Variable P : node -> Prop.
Hypothesis P_element :
  forall id name a ch, Forall P ch -> P (Element id name a ch).
Hypothesis P_text : forall data, P (Text data).
Hypothesis P_comment : forall data, P (Comment data).
Hypothesis P_directive : forall data, P (Directive data).

Fixpoint node_induction (n : node) : P n :=
  match n with
  | Element id name a ch =>
      P_element id name a ch
        ((fix all (l : list node) : Forall P l :=
            match l with
            | [] => Forall_nil P
            | c :: l' => Forall_cons c (node_induction c) (all l')
            end) ch)
  | Text data => P_text data
  | Comment data => P_comment data
  | Directive data => P_directive data
  end.
End NodeInduction.

(** What a selector and a handle can tell of an element. *)
Definition label (n : node) : option (handle * string * attribs) :=
  match n with
  | Element id name a _ => Some (id, name, a)
  | _ => None
  end.

Definition handle_of (n : node) : option handle :=
  match n with
  | Element id _ _ _ => Some id
  | _ => None
  end.

Definition attrs_of (n : node) : attribs :=
  match n with
  | Element _ _ a _ => a
  | _ => []
  end.

Definition children_of (n : node) : list node :=
  match n with
  | Element _ _ _ ch => ch
  | _ => []
  end.

Definition is_element (h : handle) (n : node) : bool :=
  match n with
  | Element id _ _ _ => Nat.eqb id h
  | _ => false
  end.

(** The handles of all elements, in document order. *)
Fixpoint handles_node (n : node) : list handle :=
  match n with
  | Element id _ _ ch => id :: flat_map handles_node ch
  | _ => []
  end.

Definition handles (d : forest) : list handle := flat_map handles_node d.

(** A handle no element of the document has: the identity of an object
    that is created now. *)
Definition fresh (d : forest) : handle := S (fold_right Nat.max 0 (handles d)).

(** [$(elem).remove()]: the element leaves the list of children of its
    parent, and its subtree goes with it. *)
Fixpoint remove_node (h : handle) (n : node) : list node :=
  match n with
  | Element id name a ch =>
      if Nat.eqb id h then []
      else [Element id name a (flat_map (remove_node h) ch)]
  | _ => [n]
  end.

Definition remove (h : handle) (d : forest) : forest :=
  flat_map (remove_node h) d.

(** A change of the attributes and children of the element [h]. *)
Definition change := attribs -> list node -> attribs * list node.

Fixpoint update_node (h : handle) (f : change) (n : node) : node :=
  match n with
  | Element id name a ch =>
      let ch' := map (update_node h f) ch in
      if Nat.eqb id h then Element id name (fst (f a ch')) (snd (f a ch'))
      else Element id name a ch'
  | _ => n
  end.

Definition update (h : handle) (f : change) (d : forest) : forest :=
  map (update_node h f) d.

(** A change that a selector does not see: it keeps what the selector tests
    on the element and adds no child that the selector matches. *)
Definition unseen_by (s : selector) (f : change) : Prop :=
  forall a ch,
    (forall name, matches s name (fst (f a ch)) = matches s name a)
    /\ select s (snd (f a ch)) = select s ch.

(** [$(elem).attr(k, v)] with a string [v]. *)
Definition set_attr (k v : string) : change := fun a ch => (put_attr k v a, ch).

Definition prepend (c : node) : change := fun a ch => (a, c :: ch).
Definition append (c : node) : change := fun a ch => (a, ch ++ [c]).

(** A copy of an element is a new object.  The elements the class inserts
    hold at most a text node, so the copy needs one new handle. *)
Definition clone (id' : handle) (n : node) : node :=
  match n with
  | Element _ name a ch => Element id' name a ch
  | _ => n
  end.

Definition handle_or_zero (n : node) : handle :=
  match n with
  | Element id _ _ _ => id
  | _ => 0
  end.

(** [elem.prependTo(targets)] and [elem.appendTo(targets)]: a copy of the
    element goes into every target but the last, the element itself into
    the last; with no target nothing is inserted. *)
Fixpoint insert_into (place : node -> change) (targets : list handle)
    (elem : node) (d : forest) : forest :=
  match targets with
  | [] => d
  | t :: ts =>
      match ts with
      | [] => update t (place elem) d
      | _ :: _ =>
          let copy := clone (S (Nat.max (handle_or_zero elem) (fresh d))) elem in
          insert_into place ts elem (update t (place copy) d)
      end
  end.

Fixpoint handles_of (ns : list node) : list handle :=
  match ns with
  | [] => []
  | n :: ns' =>
      match handle_of n with
      | Some h => h :: handles_of ns'
      | None => handles_of ns'
      end
  end.

Definition is_text (n : node) : bool :=
  match n with
  | Text _ => true
  | _ => false
  end.

(** An element whose children are text nodes, as the parser leaves every
    script and style element: their content is raw text. *)
Definition text_only (n : node) : bool := forallb is_text (children_of n).

(** No element below [n], and not [n] itself, is matched by [s]. *)
Definition holds_no (s : selector) (n : node) : bool :=
  match select_node s n with
  | [] => true
  | _ :: _ => false
  end.

(** The handle of an element and what it holds; [html()] reads the second. *)
Definition shape (n : node) : option handle * list node :=
  (handle_of n, children_of n).

(** The elements whose handle is in [hs] hold no element of [s]. *)
Definition clear_of (s : selector) (hs : list handle) (d : forest) : Prop :=
  forall e h, In e (elements d) -> In h hs -> handle_of e = Some h ->
              select_node s e = [].

(** Every element [id] gets the attributes [g id] makes of its own; nothing
    else changes.  This is what a run of [attr(k, v)] calls amounts to. *)
Fixpoint map_attrs (g : handle -> attribs -> attribs) (n : node) : node :=
  match n with
  | Element id name a ch => Element id name (g id a) (map (map_attrs g) ch)
  | _ => n
  end.

(** [k := v] on the elements whose handle is in [hs]. *)
Definition put_where (hs : list handle) (k v : string) : handle -> attribs -> attribs :=
  fun id a => if existsb (Nat.eqb id) hs then put_attr k v a else a.

End Dom.

(** ** DOM rewriter *)

Module Rewriter.
Import Dom.

Definition INLINE_SCRIPT_SELECTOR : selector :=
  {| sel_tag := "script"; sel_test := Lacks "src" |}.   (* script:not([src]) *)
Definition INLINE_STYLE_SELECTOR : selector :=
  {| sel_tag := "style"; sel_test := Lacks "href" |}.   (* style:not([href]) *)
Definition SOURCED_SCRIPT_SELECTOR : selector :=
  {| sel_tag := "script"; sel_test := Has "src" |}.     (* script[src] *)
Definition CSP_META_SELECTOR : selector :=
  {| sel_tag := "meta";
     sel_test := Equals "http-equiv" "Content-Security-Policy" |}.
Definition HEAD_SELECTOR : selector := {| sel_tag := "head"; sel_test := Any |}.
Definition BODY_SELECTOR : selector := {| sel_tag := "body"; sel_test := Any |}.

(** A method of the class: a result and the document after the call. *)
Definition method (A : Type) : Type := forest -> A * forest.

(** [cheerio.load('<meta http-equiv="Content-Security-Policy">')('meta')] *)
Definition new_meta (id : handle) : node :=
  Element id "meta" [("http-equiv", "Content-Security-Policy")] [].

(** [metaTag.attr('content', csp)] on one element. *)
Definition set_content (csp : string) : change := set_attr "content" csp.

Definition addMetaTag (csp : string) : method unit :=
  fun d =>
    let metaTag := handles_of (select CSP_META_SELECTOR d) in
    let '(metaTag, d) :=
      if (length metaTag =? 0)%nat then
        let id := fresh d in
        ([id], insert_into prepend (handles_of (select HEAD_SELECTOR d)) (new_meta id) d)
      else (metaTag, d) in
    (tt, fold_left (fun d h => update h (set_content csp) d) metaTag d).

(** The callback of [.map] at lines 143-147, run over the selection; a
    result that is [undefined] is left out by [.map]. *)
Fixpoint strip (scripts : list node) (d : forest) : list string * forest :=
  match scripts with
  | [] => ([], d)
  | script :: rest =>
      let src := get_attr "src" (attrs_of script) in
      let d := match handle_of script with
               | Some h => remove h d
               | None => d
               end in
      let '(srcs, d) := strip rest d in
      (match src with Some s => s :: srcs | None => srcs end, d)
  end.

(** The src attributes of a list of elements, in the order of the list. *)
Definition sources (scripts : list node) : list string :=
  flat_map (fun script =>
              match get_attr "src" (attrs_of script) with
              | Some s => [s]
              | None => []
              end) scripts.

(** [cheerio.load('<script>')('script')] followed by [.text(loaderScript)] *)
Definition new_script (id : handle) (text : string) : node :=
  Element id "script" [] [Text text].

Definition refactorSourcedScriptsForHashBasedCsp : method unit :=
  fun d =>
    let '(srcs, d) := strip (select SOURCED_SCRIPT_SELECTOR d) d in
    (* .filter((src) => src !== null): what the callback receives, an index
       or a string, is never null *)
    let srcList := filter (fun _ => true) srcs in
    match Loader.createLoaderScript srcList with
    | None => (tt, d)
    | Some EmptyString => (tt, d)
    | Some loaderScript =>
        let newScript := new_script (fresh d) loaderScript in
        (tt, insert_into append (handles_of (select BODY_SELECTOR d)) newScript d)
    end.

Section Serializer.

(** The adapter's serialisation of a node that is not a text node. *)
Variable markup : node -> string.

Definition render (n : node) : string :=
  match n with
  | Text data => data
  | _ => markup n
  end.

(** [$(elem).html()]: the serialised children of the element. *)
Definition html (n : node) : option string :=
  match n with
  | Element _ _ _ ch => Some (Js.join "" (map render ch))
  | _ => None
  end.

(** [x || ''] *)
Definition or_empty (x : option string) : string :=
  match x with
  | Some s => s
  | None => ""
  end.

Fixpoint hash_each (elems : list node) : option (list string) :=
  match elems with
  | [] => Some []
  | elem :: rest =>
      match Hasher.hashInlineObject (or_empty (html elem)), hash_each rest with
      | Some h, Some hs => Some (h :: hs)
      | _, _ => None
      end
  end.

Definition hashAllInlineScripts : method (option (list string)) :=
  fun d => (hash_each (select INLINE_SCRIPT_SELECTOR d), d).

Definition hashAllInlineStyles : method (option (list string)) :=
  fun d => (hash_each (select INLINE_STYLE_SELECTOR d), d).

End Serializer.

(** A script element that has no src attribute, said without a selector:
    the tag is [script] and no attribute is named [src]. *)
Definition script_without_src (n : node) : bool :=
  match n with
  | Element _ name a _ =>
      String.eqb name "script"
      && negb (existsb (fun kv => String.eqb (fst kv) "src") a)
  | _ => false
  end.

(** Every script element, with or without src. *)
Definition SCRIPT_SELECTOR : selector := {| sel_tag := "script"; sel_test := Any |}.

(** The results alone of the two hashing methods. *)
Definition inline_script_hashes (markup : node -> string) (d : forest)
    : option (list string) :=
  fst (hashAllInlineScripts markup d).

Definition inline_style_hashes (markup : node -> string) (d : forest)
    : option (list string) :=
  fst (hashAllInlineStyles markup d).

End Rewriter.

(** ** Documents used below *)

Module Documents.
Import Dom.

(** [<script src="a.js"></script><script src="b.js"></script>] as the
    constructor loads it: with [_useHtmlParser2: true] the markup is parsed
    by htmlparser2, which builds the elements that are written and supplies
    no html, head or body element. *)
Definition two_sourced_scripts : forest :=
  [Element 1 "script" [("src", "a.js")] [];
   Element 2 "script" [("src", "b.js")] []].

(** [<html><head></head><body><script src="a.js"></script><script src="b.js"></script></body></html>] *)
Definition two_sourced_scripts_in_body : forest :=
  [Element 1 "html" []
     [Element 2 "head" [] [];
      Element 3 "body" []
        [Element 4 "script" [("src", "a.js")] [];
         Element 5 "script" [("src", "b.js")] []]]].

(** [<script>alert(1)</script>] *)
Definition one_inline_script : forest :=
  [Element 1 "script" [] [Text "alert(1)"]].

(** [<html><head><title>t</title></head><body><p>hi</p><script>alert(1)</script></body></html>] *)
Definition page : forest :=
  [Element 1 "html" []
     [Element 2 "head" [] [Element 3 "title" [] [Text "t"]];
      Element 4 "body" []
        [Element 5 "p" [] [Text "hi"];
         Element 6 "script" [] [Text "alert(1)"]]]].

(** A head with two policy meta elements. *)
Definition two_csp_metas : forest :=
  [Element 1 "html" []
     [Element 2 "head" []
        [Element 3 "meta"
           [("http-equiv", "Content-Security-Policy"); ("content", "default-src 'self'")] [];
         Element 4 "meta"
           [("http-equiv", "Content-Security-Policy"); ("content", "img-src *")] []];
      Element 5 "body" [] []]].

(** Two head elements, which htmlparser2 keeps as they are written. *)
Definition two_heads : forest :=
  [Element 1 "html" []
     [Element 2 "head" [] [];
      Element 3 "head" [] [];
      Element 4 "body" [] []]].

(** [<p>hi</p>]: no head. *)
Definition headless : forest := [Element 1 "p" [] [Text "hi"]].

(** [<script src="a.js"></script><script>alert(1)</script><style>p{}</style><script></script>] *)
Definition mixed_scripts : forest :=
  [Element 1 "script" [("src", "a.js")] [];
   Element 2 "script" [] [Text "alert(1)"];
   Element 3 "style" [] [Text "p{}"];
   Element 4 "script" [] []].

(** The loader script for [a.js] and [b.js]. *)
Definition loader_a_b : string :=
  (Loader.LF ++ "    var scripts = ['a.js','b.js'];" ++ Loader.LF
   ++ "    scripts.forEach(function(scriptUrl) {" ++ Loader.LF
   ++ "      var s = document.createElement('script');" ++ Loader.LF
   ++ "      s.src = scriptUrl;" ++ Loader.LF
   ++ "      s.async = false; // preserve execution order." ++ Loader.LF
   ++ "      document.body.appendChild(s);" ++ Loader.LF
   ++ "    });" ++ Loader.LF
   ++ "    ")%string.

End Documents.

(** * Properties *)

(** ** Policy builder *)

Section PolicyFacts.
Import Js Policy.

Lemma append_empty_r (s : string) : (s ++ "")%string = s.
Proof. induction s as [|c s IH]; simpl; [reflexivity | now rewrite IH]. Qed.

(** Joining with the empty separator is plain concatenation. *)
Lemma join_segments (es : list (string * list string)) :
  join "" (map segment es) = spec_serialize es.
Proof.
  unfold join.
  induction es as [|[name tokens] es IH]; [reflexivity|].
  cbn [map spec_serialize].
  destruct es as [|e es'].
  - cbn. unfold segment, spec_segment. cbn [fst snd].
    now rewrite append_empty_r.
  - change (String.concat "" (segment (name, tokens) :: map segment (e :: es')))
      with (segment (name, tokens) ++ "" ++ String.concat "" (map segment (e :: es')))%string.
    rewrite IH. reflexivity.
Qed.

(** The store after the four array literals of the template. *)
Lemma directives_spec (sh st : option (list string)) (o : option CspOptions) :
  directives sh st o
  = Some (spec_directives (or_default sh []) (or_default st []) (effective o)).
Proof.
  unfold directives, strictCspTemplate, effective, spec_directives, spec_script_src.
  set (opts := or_default o defaultCspOptions).
  set (hs := or_default sh []). set (ss := or_default st []).
  destruct opts as [fb tt ev]. cbn [enableBrowserFallbacks enableTrustedTypes
    enableUnsafeEval fallbacks trustedTypes unsafeEval].
  destruct (truthy fb), (truthy tt), (truthy ev), hs as [|h hs'];
    cbn; rewrite <- ?app_assoc, ?app_nil_r; reflexivity.
Qed.

Lemma getStrictCsp_directives (sh st : option (list string)) (o : option CspOptions) :
  getStrictCsp sh st o
  = option_map (fun es => join "" (map segment es)) (directives sh st o).
Proof.
  unfold getStrictCsp, directives, run, bind, ret.
  destruct (strictCspTemplate sh st o []) as [[t s]|]; [|reflexivity].
  destruct (entries t s) as [[es s']|]; reflexivity.
Qed.

(** [getStrictCsp] never throws, whatever is omitted, and its result is the
    serialisation of the directive set of section 4.2. *)
Lemma getStrictCsp_spec (sh st : option (list string)) (o : option CspOptions) :
  getStrictCsp sh st o
  = Some (buildPolicy (or_default sh []) (or_default st []) (effective o)).
Proof.
  rewrite getStrictCsp_directives, directives_spec. cbn [option_map].
  now rewrite join_segments.
Qed.

Lemma directive_tokens_spec (name : string) (sh st : option (list string))
    (o : option CspOptions) :
  directive_tokens name sh st o
  = tokens_of name
      (spec_directives (or_default sh []) (or_default st []) (effective o)).
Proof. unfold directive_tokens. now rewrite directives_spec. Qed.

Lemma effective_options_of (o : PolicyOptions) : effective (Some (options_of o)) = o.
Proof. destruct o as [[] [] []]; reflexivity. Qed.

(** C1.  For every sequence of script hashes, every sequence of style hashes
    and every choice of options, [getStrictCsp] returns exactly the string
    made of the segments ["<name> <token1> <token2> ...;"] of the directives
    script-src, style-src, object-src, base-uri and, when enabled,
    require-trusted-types-for, in that order and with nothing between the
    segments.  With no hashes and the default options that string is
    ["script-src 'strict-dynamic' https:;style-src ;object-src 'none';base-uri 'self';"],
    with the space before the semicolon of the empty style-src segment. *)
Theorem getStrictCsp_exact_policy :
  (forall (scriptHashes styleHashes : list string) (o : PolicyOptions),
      getStrictCsp (Some scriptHashes) (Some styleHashes) (Some (options_of o))
      = Some (buildPolicy scriptHashes styleHashes o))
  /\ getStrictCsp (Some []) (Some []) (Some (options_of defaults))
     = Some "script-src 'strict-dynamic' https:;style-src ;object-src 'none';base-uri 'self';".
Proof.
  split; [|reflexivity].
  intros sh st o. rewrite getStrictCsp_spec, effective_options_of. reflexivity.
Qed.

Lemma existsb_marker (tok : string) (sh : list string) (ev : bool) :
  String.eqb tok "'strict-dynamic'" = false ->
  String.eqb tok "'unsafe-eval'" = false ->
  existsb (String.eqb tok) (("'strict-dynamic'" :: sh) ++ eval_tokens ev)
  = existsb (String.eqb tok) sh.
Proof.
  intros H1 H2. cbn [app existsb]. rewrite H1. cbn [orb].
  rewrite existsb_app. destruct ev; cbn [eval_tokens existsb].
  - rewrite H2. now rewrite !orb_false_r.
  - now rewrite orb_false_r.
Qed.

(** C2, as the code has it.  With [enableBrowserFallbacks] true the tokens
    of script-src are
    ['strict-dynamic'], the given script hashes, then [https:], then
    ['unsafe-inline'] exactly when there is a script hash, then whatever
    [enableUnsafeEval] adds.  With [enableBrowserFallbacks] false nothing
    stands between the hashes and what [enableUnsafeEval] adds: [https:]
    and ['unsafe-inline'] occur among the tokens only where the caller put
    them among the hashes. *)
Theorem fallbacks_append_https_then_unsafe_inline
    (scriptHashes styleHashes : list string) (tt ev : option bool) :
  directive_tokens "script-src" (Some scriptHashes) (Some styleHashes)
      (Some (mkCspOptions (Some true) tt ev))
  = Some (("'strict-dynamic'" :: scriptHashes)
            ++ ["https:"]
            ++ (match scriptHashes with [] => [] | _ :: _ => ["'unsafe-inline'"] end)
            ++ eval_tokens (truthy ev))
  /\ directive_tokens "script-src" (Some scriptHashes) (Some styleHashes)
       (Some (mkCspOptions (Some false) tt ev))
     = Some (("'strict-dynamic'" :: scriptHashes) ++ eval_tokens (truthy ev))
  /\ option_map (existsb (String.eqb "https:"))
       (directive_tokens "script-src" (Some scriptHashes) (Some styleHashes)
          (Some (mkCspOptions (Some false) tt ev)))
     = Some (existsb (String.eqb "https:") scriptHashes)
  /\ option_map (existsb (String.eqb "'unsafe-inline'"))
       (directive_tokens "script-src" (Some scriptHashes) (Some styleHashes)
          (Some (mkCspOptions (Some false) tt ev)))
     = Some (existsb (String.eqb "'unsafe-inline'") scriptHashes)
  /\ directive_tokens "script-src" (Some ["'sha256-AAA='"]) (Some [])
       (Some (mkCspOptions (Some true) tt ev))
     = Some (["'strict-dynamic'"; "'sha256-AAA='"; "https:"; "'unsafe-inline'"]
               ++ eval_tokens (truthy ev)).
Proof.
  assert (Hoff : directive_tokens "script-src" (Some scriptHashes)
                   (Some styleHashes) (Some (mkCspOptions (Some false) tt ev))
                 = Some (("'strict-dynamic'" :: scriptHashes)
                           ++ eval_tokens (truthy ev)))
    by (rewrite directive_tokens_spec; reflexivity).
  rewrite Hoff. cbn [option_map].
  repeat split; rewrite ?directive_tokens_spec; try reflexivity;
    f_equal; apply existsb_marker; reflexivity.
Qed.

(** C2, as the claim words it, fails: the hashes are copied as they are
    given, so with [enableBrowserFallbacks] false both [https:] and
    ['unsafe-inline'] appear in script-src when the caller passes them as
    hashes. *)
Lemma fallbacks_off_tokens_still_appear :
  directive_tokens "script-src" (Some ["https:"; "'unsafe-inline'"]) (Some [])
    (Some (mkCspOptions (Some false) (Some false) (Some false)))
  = Some ["'strict-dynamic'"; "https:"; "'unsafe-inline'"]
  /\ getStrictCsp (Some ["https:"; "'unsafe-inline'"]) (Some [])
       (Some (mkCspOptions (Some false) (Some false) (Some false)))
     = Some "script-src 'strict-dynamic' https: 'unsafe-inline';style-src ;object-src 'none';base-uri 'self';"
  /\ ~ (forall (scriptHashes styleHashes : list string) (tt ev : option bool),
           option_map (existsb (String.eqb "https:"))
             (directive_tokens "script-src" (Some scriptHashes) (Some styleHashes)
                (Some (mkCspOptions (Some false) tt ev)))
           = Some false
           /\ option_map (existsb (String.eqb "'unsafe-inline'"))
                (directive_tokens "script-src" (Some scriptHashes) (Some styleHashes)
                   (Some (mkCspOptions (Some false) tt ev)))
              = Some false).
Proof.
  split; [reflexivity|]. split; [reflexivity|].
  intro H.
  destruct (H ["https:"; "'unsafe-inline'"] [] (Some false) (Some false)) as [H1 _].
  discriminate H1.
Qed.

(** C3.  Enabling [enableTrustedTypes] adds the directive
    require-trusted-types-for with the single token ['script'] after
    base-uri, as the last directive, and changes no other directive: the
    tokens of script-src are the same with and without it.  Enabling
    [enableUnsafeEval] puts ['unsafe-eval'] after every other token of
    script-src, whether or not [enableTrustedTypes] is enabled too. *)
Theorem trusted_types_last_unsafe_eval_last
    (sh st : option (list string)) (fb tt ev : option bool) :
  directives sh st (Some (mkCspOptions fb (Some true) ev))
  = option_map (fun ds => ds ++ [("require-trusted-types-for", ["'script'"])])
      (directives sh st (Some (mkCspOptions fb (Some false) ev)))
  /\ option_map (map fst) (directives sh st (Some (mkCspOptions fb (Some true) ev)))
     = Some ["script-src"; "style-src"; "object-src"; "base-uri";
             "require-trusted-types-for"]
  /\ directive_tokens "script-src" sh st (Some (mkCspOptions fb (Some true) ev))
     = directive_tokens "script-src" sh st (Some (mkCspOptions fb (Some false) ev))
  /\ directive_tokens "script-src" sh st (Some (mkCspOptions fb tt (Some true)))
     = option_map (fun ts => ts ++ ["'unsafe-eval'"])
         (directive_tokens "script-src" sh st (Some (mkCspOptions fb tt (Some false))))
  /\ directive_tokens "script-src" sh st (Some (mkCspOptions fb (Some true) (Some true)))
     = Some (("'strict-dynamic'" :: or_default sh [])
               ++ fallback_tokens (or_default sh []) (truthy fb)
               ++ ["'unsafe-eval'"]).
Proof.
  rewrite !directive_tokens_spec, !directives_spec.
  unfold spec_directives, spec_script_src, effective.
  cbn [or_default enableBrowserFallbacks enableTrustedTypes enableUnsafeEval
       fallbacks trustedTypes unsafeEval truthy option_map tokens_of String.eqb
       Ascii.eqb Bool.eqb app map fst eval_tokens].
  repeat split.
  destruct (truthy tt); cbn [app tokens_of String.eqb Ascii.eqb Bool.eqb option_map];
    now rewrite !app_nil_r, <- ?app_assoc.
Qed.

(** C9.  The defaults stand in only for an omitted [cspOptions].  When an
    object is passed whose [enableBrowserFallbacks] is absent, the policy
    is the one for [enableBrowserFallbacks] false: script-src holds
    ['strict-dynamic'], the hashes and what [enableUnsafeEval] adds, and no
    fallback token is added.  When the argument is omitted the fallback
    tokens are added. *)
Theorem absent_fallbacks_field_is_false
    (sh st : option (list string)) (tt ev : option bool) :
  getStrictCsp sh st (Some (mkCspOptions None tt ev))
  = getStrictCsp sh st (Some (mkCspOptions (Some false) tt ev))
  /\ directive_tokens "script-src" sh st (Some (mkCspOptions None tt ev))
     = Some (("'strict-dynamic'" :: or_default sh []) ++ eval_tokens (truthy ev))
  /\ getStrictCsp sh st None
     = getStrictCsp sh st (Some (mkCspOptions (Some true) (Some false) (Some false)))
  /\ directive_tokens "script-src" sh st None
     = Some (("'strict-dynamic'" :: or_default sh [])
               ++ "https:"
               :: match or_default sh [] with [] => [] | _ :: _ => ["'unsafe-inline'"] end).
Proof.
  rewrite !directive_tokens_spec, !getStrictCsp_spec.
  repeat split.
  cbn. destruct (or_default sh []); reflexivity.
Qed.

End PolicyFacts.

(** ** Hasher *)

Section HasherFacts.
Import Hasher.

Lemma hashInlineObject_hash (text : string) : hashInlineObject text = Some (hash text).
Proof. reflexivity. Qed.

Lemma length_append (s t : string) :
  String.length (s ++ t) = String.length s + String.length t.
Proof. induction s as [|c s IH]; cbn; [reflexivity | now rewrite IH]. Qed.

Lemma digit_length (i : Z) : (0 <= i < 64)%Z -> String.length (Base64.digit i) = 1.
Proof.
  intro Hi. unfold Base64.digit.
  assert (Hn : Z.to_nat i < 64) by lia.
  generalize dependent (Z.to_nat i). intros n Hn.
  do 64 (destruct n as [|n]; [reflexivity|]). lia.
Qed.

Lemma high_bits_range (a : Z) : byte a -> (0 <= Z.shiftr a 2 < 64)%Z.
Proof.
  unfold byte. intro Ha. rewrite Z.shiftr_div_pow2 by lia.
  change (2 ^ 2)%Z with 4%Z. split.
  - apply Z.div_pos; lia.
  - apply Z.div_lt_upper_bound; lia.
Qed.

Lemma low_bits_range (x : Z) : (0 <= Z.land x 63 < 64)%Z.
Proof.
  change 63%Z with (Z.ones 6). rewrite Z.land_ones by lia.
  apply Z.mod_pos_bound. reflexivity.
Qed.

(** Base64 turns every three bytes, and what is left, into four characters. *)
Lemma encode_length (bs : list Z) :
  Forall byte bs ->
  String.length (Base64.encode bs) = 4 * Base64.groups (length bs).
Proof.
  assert (H : forall n bs, length bs <= n -> Forall byte bs ->
              String.length (Base64.encode bs) = 4 * Base64.groups (length bs)).
  { induction n as [|n IH]; intros l Hl Hb.
    - destruct l; [reflexivity | cbn in Hl; lia].
    - destruct l as [|a [|b [|c rest]]]; [reflexivity| | |].
      + inversion_clear Hb as [|? ? Ha _].
        cbn [Base64.encode length Base64.groups].
        rewrite !length_append, digit_length, digit_length;
          [reflexivity | apply low_bits_range | now apply high_bits_range].
      + inversion_clear Hb as [|? ? Ha _].
        cbn [Base64.encode length Base64.groups].
        rewrite !length_append, !digit_length;
          [reflexivity | apply low_bits_range | apply low_bits_range
          | now apply high_bits_range].
      + inversion_clear Hb as [|? ? Ha Hb']. inversion_clear Hb' as [|? ? _ Hb].
        inversion_clear Hb as [|? ? _ Hrest].
        cbn [Base64.encode length Base64.groups].
        rewrite !length_append, !digit_length, IH;
          [lia | cbn [length] in Hl; lia | assumption | apply low_bits_range
          | apply low_bits_range | apply low_bits_range
          | now apply high_bits_range]. }
  intro Hb. now apply (H (length bs)).
Qed.

Lemma blocks_length (n : nat) (bs H : list Z) :
  length H = 8 -> length (Sha256.blocks n bs H) = 8.
Proof.
  revert bs H. induction n as [|n IH]; intros bs H HH; [assumption|].
  cbn [Sha256.blocks]. apply IH. reflexivity.
Qed.

Lemma be_bytes_bytes (n : nat) (x : Z) : Forall byte (Sha256.be_bytes n x).
Proof.
  unfold Sha256.be_bytes. apply Forall_map, Forall_forall.
  intros i _. apply Z.mod_pos_bound. reflexivity.
Qed.

(** The digest is 32 bytes, whatever was fed. *)
Lemma digest_bytes (msg : list Z) :
  Forall byte (Sha256.digest msg) /\ length (Sha256.digest msg) = 32.
Proof.
  unfold Sha256.digest. split.
  - apply Forall_flat_map, Forall_forall. intros x _. apply be_bytes_bytes.
  - pose proof (blocks_length (length (Sha256.pad msg) / 64) (Sha256.pad msg)
                  Sha256.H0 eq_refl) as Hl.
    destruct (Sha256.blocks _ _ _) as [|w0 [|w1 [|w2 [|w3 [|w4 [|w5 [|w6 [|w7 [|]]]]]]]]];
      try discriminate Hl.
    reflexivity.
Qed.

(** A hash is ['sha256-], 44 characters of base64 and a quote. *)
Lemma hash_length (text : string) : String.length (hash text) = 53.
Proof.
  unfold hash. destruct (digest_bytes (utf8 text)) as [Hb Hl].
  rewrite !length_append, encode_length, Hl by assumption. reflexivity.
Qed.

(** C4.  [hashInlineObject] never throws and returns, between single quotes,
    [sha256-] followed by the base64 encoding of the SHA-256 digest of the
    UTF-8 bytes of the text.  The result depends on the text alone: every
    call starts from a new hash object that has been fed nothing.  For the
    empty text the digest is the one of the empty sequence of bytes and the
    result is ['sha256-47DEQpj8HBSa+/TImW+5JCeuQeRkm5NMpJWZG3hSuFU=']. *)
Theorem hashInlineObject_sha256_base64 :
  (forall text : string,
      hashInlineObject text
      = Some ("'sha256-" ++ Base64.encode (Sha256.digest (utf8 text)) ++ "'")%string)
  /\ option_map fed (createHash HASH_FUNCTION) = Some []
  /\ (forall text : string,
        option_map String.length (hashInlineObject text) = Some 53)
  /\ Sha256.digest (utf8 "") = empty_digest
  /\ hashInlineObject ""
     = Some "'sha256-47DEQpj8HBSa+/TImW+5JCeuQeRkm5NMpJWZG3hSuFU='".
Proof.
  split; [intro text; reflexivity|].
  split; [reflexivity|].
  split; [intro text; rewrite hashInlineObject_hash; cbn [option_map];
          now rewrite hash_length|].
  split; vm_compute; reflexivity.
Qed.

(** Test vectors: ["abc"] (FIPS 180-4, one block) and a message of 56
    bytes, whose padding spills into a second block. *)
Example hash_abc :
  hashInlineObject "abc" = Some "'sha256-ungWv48Bz+pBQUDeXa4iI7ADYaOWF3qctBD/YfIAFa0='".
Proof. vm_compute. reflexivity. Qed.

Example hash_two_blocks :
  hashInlineObject "aaaaaaaaaaaaaaaaaaaaaaaaaaaaaaaaaaaaaaaaaaaaaaaaaaaaaaaa"
  = Some "'sha256-s1Q5pKxvCUi21vnjxq8PX1kM4g8b3nCQ73lwaG7Gc4o='".
Proof. vm_compute. reflexivity. Qed.

(** A text outside ASCII: the two bytes of [é] are hashed. *)
Example hash_utf8 :
  utf8 "café" = [99; 97; 102; 195; 169]%Z
  /\ hashInlineObject "café"
     = Some "'sha256-hQ99xDkQ/4kPiHnA7Sb+aXyToGetk6fVD0ZqcCipv04='".
Proof. split; vm_compute; reflexivity. Qed.

End HasherFacts.

(** ** Loader script *)

Section LoaderFacts.
Import Loader.

Lemma append_assoc (a b c : string) : ((a ++ b) ++ c = a ++ (b ++ c))%string.
Proof. induction a as [|x a IH]; simpl; [reflexivity | now rewrite IH]. Qed.

Lemma scan_plain (s rest : string) :
  plain s = true ->
  scan true false (s ++ "'" ++ rest) = scan false false rest.
Proof.
  induction s as [|c s IH]; intro H.
  - reflexivity.
  - cbn [plain] in H. apply andb_prop in H as [H Hs]. apply andb_prop in H as [Hq Hb].
    apply negb_true_iff in Hq, Hb.
    cbn [append scan]. rewrite Hq, Hb. now apply IH.
Qed.

Lemma scan_quoted (s rest : string) :
  plain s = true ->
  scan false false (quote s ++ rest) = scan false false rest.
Proof.
  intro H. unfold quote. rewrite !append_assoc.
  change (scan false false ("'" ++ s ++ "'" ++ rest))
    with (scan true false (s ++ "'" ++ rest)).
  now apply scan_plain.
Qed.

(** Sources without quote and backslash stay inside their literals. *)
Lemma plain_sources_stay_inside (srcList : list string) :
  forallb plain srcList = true ->
  outside_literals (srcListFormatted srcList) = "".
Proof.
  unfold outside_literals, srcListFormatted, Js.join.
  induction srcList as [|s l IH]; intro H; [reflexivity|].
  cbn [forallb] in H. apply andb_prop in H as [Hs Hl].
  destruct l as [|s' l'].
  - cbn [map String.concat]. rewrite <- (append_empty_r (quote s)).
    now rewrite scan_quoted.
  - change (String.concat "," (map quote (s :: s' :: l')))
      with (quote s ++ "," ++ String.concat "," (map quote (s' :: l')))%string.
    rewrite scan_quoted by assumption.
    cbn [append scan Ascii.eqb Bool.eqb]. now apply IH.
Qed.

(** C10.  For a source list that is not empty, [createLoaderScript] returns
    the fixed template around the sources, each one put between single
    quotes as it is and the quoted sources joined by commas.  Nothing is
    escaped: with the source [x',alert(1),'] the array literal reads
    ['x',alert(1),''] and the characters [alert(1)] of the source stand
    outside every string literal, whereas the characters of [a.js] and
    [b.js] all stay inside. *)
Theorem createLoaderScript_embeds_sources_verbatim :
  (forall (s : string) (rest : list string),
      createLoaderScript (s :: rest)
      = Some (template_head
                ++ Js.join "," (map (fun u => "'" ++ u ++ "'") (s :: rest))
                ++ template_tail)%string)
  /\ outside_literals (srcListFormatted ["a.js"; "b.js"]) = ""
  /\ (exists url : string,
        String.index 0 "'" url = Some 1%nat
        /\ srcListFormatted [url] = "'x',alert(1),''"
        /\ outside_literals (srcListFormatted [url]) = "alert(1)").
Proof.
  split; [intros s rest; reflexivity|].
  split; [reflexivity|].
  exists "x',alert(1),'". repeat split.
Qed.

End LoaderFacts.

(** ** Document tree *)

Section DomFacts.
Import Dom.

Lemma flat_map_map_Forall {A B : Type} (f : A -> list B) (g : A -> A) (h : B -> B)
    (l : list A) :
  Forall (fun c => f (g c) = map h (f c)) l ->
  flat_map f (map g l) = map h (flat_map f l).
Proof.
  induction 1 as [|c l Hc _ IH]; [reflexivity|].
  cbn [map flat_map]. now rewrite map_app, Hc, IH.
Qed.

Lemma map_fixed_Forall {A : Type} (g : A -> A) (l : list A) :
  Forall (fun c => g c = c) l -> map g l = l.
Proof.
  induction 1 as [|c l Hc _ IH]; [reflexivity|].
  cbn [map]. now rewrite Hc, IH.
Qed.

(** *** Selection is a filter of the elements in document order *)

Lemma select_node_filter (s : selector) (n : node) :
  select_node s n = filter (matching s) (elements_node n).
Proof.
  induction n as [id name a ch IH| | |] using node_induction; try reflexivity.
  cbn [select_node elements_node filter matching].
  assert (E : flat_map (select_node s) ch
              = filter (matching s) (flat_map elements_node ch)).
  { induction IH as [|c l Hc _ IHl]; [reflexivity|].
    cbn [flat_map]. now rewrite filter_app, Hc, IHl. }
  rewrite E. now destruct (matches s name a).
Qed.

Lemma select_filter (s : selector) (d : forest) :
  select s d = filter (matching s) (elements d).
Proof.
  unfold select, elements.
  induction d as [|n d IH]; [reflexivity|].
  cbn [flat_map]. now rewrite filter_app, select_node_filter, IH.
Qed.

Lemma select_app (s : selector) (d1 d2 : forest) :
  select s (d1 ++ d2) = select s d1 ++ select s d2.
Proof. apply flat_map_app. Qed.

Lemma elements_are_elements (n : node) (d : forest) :
  In n (elements d) -> exists id name a ch, n = Element id name a ch.
Proof.
  unfold elements. revert n.
  induction d as [|r d IH]; intros n Hn; [destruct Hn|].
  cbn [flat_map] in Hn. apply in_app_or in Hn as [Hn|Hn]; [|now apply IH].
  clear IH. revert n Hn.
  induction r as [id name a ch IH| | |] using node_induction;
    intros n Hn; try destruct Hn.
  - subst. now exists id, name, a, ch.
  - fold (flat_map elements_node ch) in H.
    apply in_flat_map in H as [c [Hc Hn]].
    rewrite Forall_forall in IH. now apply (IH c Hc).
Qed.

Lemma selected_is_matching (s : selector) (n : node) (d : forest) :
  In n (select s d) ->
  exists id name a ch, n = Element id name a ch /\ matches s name a = true.
Proof.
  rewrite select_filter, filter_In. intros [Hn Hm].
  destruct (elements_are_elements n d Hn) as (id & name & a & ch & ->).
  now exists id, name, a, ch.
Qed.

(** *** Handles of subtrees *)

Lemma elements_node_handles (n r : node) :
  In n (elements_node r) -> incl (handles_node n) (handles_node r).
Proof.
  revert n.
  induction r as [id name a ch IH| | |] using node_induction;
    intros n Hn; try destruct Hn.
  - subst. apply incl_refl.
  - fold (flat_map elements_node ch) in H.
    apply in_flat_map in H as [c [Hc Hn]].
    rewrite Forall_forall in IH. specialize (IH c Hc n Hn).
    intros h Hh. cbn [handles_node]. right.
    apply in_flat_map. exists c. split; [assumption | now apply IH].
Qed.

Lemma elements_handles (n : node) (d : forest) :
  In n (elements d) -> incl (handles_node n) (handles d).
Proof.
  unfold elements, handles. intros Hn h Hh.
  apply in_flat_map in Hn as [r [Hr Hn]].
  apply in_flat_map. exists r. split; [assumption|].
  now apply (elements_node_handles n r Hn).
Qed.

Lemma NoDup_flat_map_part {A B : Type} (f : A -> list B) (l : list A) (c : A) :
  In c l -> NoDup (flat_map f l) -> NoDup (f c).
Proof.
  induction l as [|x l IH]; intros Hc Hnd; [destruct Hc|].
  cbn [flat_map] in Hnd. destruct Hc as [->|Hc].
  - now apply NoDup_app_remove_r in Hnd.
  - apply IH; [assumption|]. now apply NoDup_app_remove_l in Hnd.
Qed.

Lemma elements_node_NoDup (n r : node) :
  In n (elements_node r) -> NoDup (handles_node r) -> NoDup (handles_node n).
Proof.
  revert n.
  induction r as [id name a ch IH| | |] using node_induction;
    intros n Hn Hnd; try destruct Hn.
  - now subst.
  - fold (flat_map elements_node ch) in H.
    apply in_flat_map in H as [c [Hc Hn]].
    rewrite Forall_forall in IH. apply (IH c Hc n Hn).
    cbn [handles_node] in Hnd. apply NoDup_cons_iff in Hnd as [_ Hnd].
    now apply (NoDup_flat_map_part handles_node ch c).
Qed.

Lemma elements_NoDup (n : node) (d : forest) :
  In n (elements d) -> NoDup (handles d) -> NoDup (handles_node n).
Proof.
  unfold elements, handles. intros Hn Hnd.
  apply in_flat_map in Hn as [r [Hr Hn]].
  apply (elements_node_NoDup n r Hn).
  now apply (NoDup_flat_map_part handles_node d r).
Qed.

Lemma fresh_above (h : handle) (d : forest) : In h (handles d) -> h < fresh d.
Proof.
  unfold fresh. generalize (handles d) as l.
  induction l as [|x l IH]; intro H; [destruct H|].
  cbn [fold_right]. destruct H as [->|H]; [lia|].
  specialize (IH H). lia.
Qed.

(** *** Updating one element *)

Lemma select_update_node (s : selector) (h : handle) (f : change) (n : node) :
  unseen_by s f ->
  select_node s (update_node h f n) = map (update_node h f) (select_node s n).
Proof.
  intro Hf.
  induction n as [id name a ch IH| | |] using node_induction; try reflexivity.
  apply flat_map_map_Forall in IH.
  cbn [update_node select_node]. rewrite map_app.
  destruct (Hf a (map (update_node h f) ch)) as [Hm Hs].
  unfold select in Hs.
  destruct (Nat.eqb id h) eqn:E.
  - cbn [select_node]. rewrite Hm, Hs, IH.
    destruct (matches s name a); cbn [map update_node app]; now rewrite ?E.
  - cbn [select_node]. rewrite IH.
    destruct (matches s name a); cbn [map update_node app]; now rewrite ?E.
Qed.

Lemma select_update (s : selector) (h : handle) (f : change) (d : forest) :
  unseen_by s f ->
  select s (update h f d) = map (update_node h f) (select s d).
Proof.
  intro Hf. unfold select, update.
  apply flat_map_map_Forall. apply Forall_forall. intros n _.
  now apply select_update_node.
Qed.

Lemma update_node_absent (h : handle) (f : change) (n : node) :
  ~ In h (handles_node n) -> update_node h f n = n.
Proof.
  induction n as [id name a ch IH| | |] using node_induction; try reflexivity.
  intro Hh. cbn [handles_node] in Hh. cbn [update_node].
  assert (E : Nat.eqb id h = false)
    by (apply Nat.eqb_neq; intros ->; apply Hh; now left).
  rewrite E. f_equal. apply map_fixed_Forall.
  rewrite Forall_forall in IH |- *. intros c Hc. apply (IH c Hc).
  intro Hin. apply Hh. right. apply in_flat_map. now exists c.
Qed.

Lemma update_absent (h : handle) (f : change) (d : forest) :
  ~ In h (handles d) -> update h f d = d.
Proof.
  intro Hh. unfold update. apply map_fixed_Forall, Forall_forall.
  intros n Hn. apply update_node_absent. intro Hin. apply Hh.
  unfold handles. apply in_flat_map. now exists n.
Qed.

(** How many elements a selector finds after an element was put in front
    of the children of the elements with handle [k]. *)
Lemma length_select_prepend_node (s : selector) (k : handle) (m n : node) :
  length (select_node s (update_node k (prepend m) n))
  = length (select_node s n)
    + count_occ Nat.eq_dec (handles_node n) k * length (select_node s m).
Proof.
  induction n as [id name a ch IH| | |] using node_induction; try reflexivity.
  assert (E : length (flat_map (select_node s) (map (update_node k (prepend m)) ch))
              = length (flat_map (select_node s) ch)
                + count_occ Nat.eq_dec (flat_map handles_node ch) k
                  * length (select_node s m)).
  { induction IH as [|c l Hc _ IHl]; [reflexivity|].
    cbn [map flat_map]. rewrite !length_app, count_occ_app, Hc, IHl. unfold handle. lia. }
  cbn [update_node handles_node].
  destruct (Nat.eqb id k) eqn:Eid.
  - apply Nat.eqb_eq in Eid. subst id.
    rewrite count_occ_cons_eq by reflexivity.
    cbn [prepend fst snd select_node flat_map].
    rewrite !length_app, E, Nat.mul_succ_l. unfold handle.
    destruct (matches s name a); cbn [length]; lia.
  - apply Nat.eqb_neq in Eid.
    rewrite count_occ_cons_neq by assumption.
    cbn [select_node]. rewrite !length_app, E. unfold handle.
    destruct (matches s name a); cbn [length]; lia.
Qed.

Lemma length_select_prepend (s : selector) (k : handle) (m : node) (d : forest) :
  length (select s (update k (prepend m) d))
  = length (select s d)
    + count_occ Nat.eq_dec (handles d) k * length (select_node s m).
Proof.
  unfold select, update, handles.
  induction d as [|n d IH]; [reflexivity|].
  cbn [map flat_map].
  rewrite !length_app, count_occ_app, length_select_prepend_node, IH.
  unfold handle. lia.
Qed.

Lemma count_occ_NoDup_In (l : list nat) (k : nat) :
  NoDup l -> In k l -> count_occ Nat.eq_dec l k = 1.
Proof.
  intros Hnd Hin.
  apply (proj1 (NoDup_count_occ Nat.eq_dec l)) with (x := k) in Hnd.
  apply (proj1 (count_occ_In Nat.eq_dec l k)) in Hin. lia.
Qed.

(** *** Attributes *)

Lemma get_put_attr_same (k v : string) (a : attribs) :
  get_attr k (put_attr k v a) = Some v.
Proof.
  induction a as [|[k' v'] a IH]; cbn [put_attr get_attr].
  - now rewrite String.eqb_refl.
  - destruct (String.eqb k' k) eqn:E; cbn [get_attr]; now rewrite E.
Qed.

Lemma get_put_attr_other (k k' v : string) (a : attribs) :
  String.eqb k' k = false ->
  get_attr k (put_attr k' v a) = get_attr k a.
Proof.
  intro Hk.
  induction a as [|[k0 v0] a IH]; cbn [put_attr get_attr].
  - now rewrite Hk.
  - destruct (String.eqb k0 k') eqn:E; cbn [get_attr].
    + apply String.eqb_eq in E. subst k0. now rewrite Hk.
    + now rewrite IH.
Qed.

(** *** Removing an element *)

Lemma matching_label (s : selector) (e e' : node) :
  label e = label e' -> matching s e = matching s e'.
Proof.
  destruct e, e'; cbn; intro H; try reflexivity; try discriminate H.
  now injection H as _ -> ->.
Qed.

Lemma handle_of_label (e e' : node) : label e = label e' -> handle_of e = handle_of e'.
Proof.
  destruct e, e'; cbn; intro H; try reflexivity; try discriminate H.
  now injection H as ->.
Qed.

(** What is left after a removal was there before, and is not the element
    removed. *)
Lemma remove_node_elements (h : handle) (r e' : node) :
  In e' (elements (remove_node h r)) ->
  handle_of e' <> Some h
  /\ exists e, In e (elements_node r) /\ label e = label e'.
Proof.
  revert e'.
  induction r as [id name a ch IH| | |] using node_induction; intros e' He';
    try (cbn in He'; contradiction).
  cbn [remove_node] in He'.
  destruct (Nat.eqb id h) eqn:E; [destruct He'|].
  apply Nat.eqb_neq in E.
  unfold elements in He'. cbn [flat_map elements_node] in He'.
  rewrite app_nil_r in He'.
  destruct He' as [<-|He'].
  - split; [cbn; congruence|].
    exists (Element id name a ch). split; [now left | reflexivity].
  - apply in_flat_map in He' as [c' [Hc' He']].
    apply in_flat_map in Hc' as [c [Hc Hc']].
    rewrite Forall_forall in IH.
    destruct (IH c Hc e') as [Hh [e [He Hl]]].
    { unfold elements. apply in_flat_map. now exists c'. }
    split; [assumption|].
    exists e. split; [|assumption].
    right. apply in_flat_map. now exists c.
Qed.

Lemma remove_elements (h : handle) (d : forest) (e' : node) :
  In e' (elements (remove h d)) ->
  handle_of e' <> Some h
  /\ exists e, In e (elements d) /\ label e = label e'.
Proof.
  unfold remove. intro He'.
  unfold elements in He'.
  apply in_flat_map in He' as [c' [Hc' He']].
  apply in_flat_map in Hc' as [r [Hr Hc']].
  destruct (remove_node_elements h r e') as [Hh [e [He Hl]]].
  { unfold elements. apply in_flat_map. now exists c'. }
  split; [assumption|].
  exists e. split; [|assumption].
  unfold elements. apply in_flat_map. now exists r.
Qed.

Lemma In_handles_of (n : node) (ns : list node) (h : handle) :
  In n ns -> handle_of n = Some h -> In h (handles_of ns).
Proof.
  induction ns as [|x ns IH]; intros Hn Hh; [destruct Hn|].
  cbn [handles_of]. destruct Hn as [->|Hn].
  - rewrite Hh. now left.
  - destruct (handle_of x); [right|]; now apply IH.
Qed.

End DomFacts.

(** ** DOM rewriter *)

Section RewriterFacts.
Import Dom Rewriter Documents.

Lemma set_content_unseen_by_meta (csp : string) :
  unseen_by CSP_META_SELECTOR (set_content csp).
Proof.
  intros a ch. split; [|reflexivity]. intro name.
  unfold matches, CSP_META_SELECTOR, set_content, set_attr.
  cbn [sel_tag sel_test test_attrs fst].
  now rewrite get_put_attr_other by reflexivity.
Qed.

Lemma set_content_unseen_by_head (csp : string) :
  unseen_by HEAD_SELECTOR (set_content csp).
Proof. intros a ch. split; reflexivity. Qed.

Lemma prepend_meta_unseen_by_head (id : handle) :
  unseen_by HEAD_SELECTOR (prepend (new_meta id)).
Proof. intros a ch. split; reflexivity. Qed.

(** *** [addMetaTag] *)

Lemma addMetaTag_existing (csp : string) (d : forest) (id : handle)
    (name : string) (a : attribs) (ch : list node) (ms : list node) :
  select CSP_META_SELECTOR d = Element id name a ch :: ms ->
  snd (addMetaTag csp d)
  = fold_left (fun d h => update h (set_content csp) d) (id :: handles_of ms) d.
Proof. intro H. unfold addMetaTag. rewrite H. reflexivity. Qed.

Lemma addMetaTag_new (csp : string) (d : forest) (k : handle)
    (name : string) (a : attribs) (ch : list node) :
  select CSP_META_SELECTOR d = [] ->
  select HEAD_SELECTOR d = [Element k name a ch] ->
  snd (addMetaTag csp d)
  = update (fresh d) (set_content csp)
      (update k (prepend (new_meta (fresh d))) d).
Proof. intros Hm Hh. unfold addMetaTag. rewrite Hm, Hh. reflexivity. Qed.

(** One policy meta element: it stays the only one and gets the policy. *)
Lemma addMetaTag_one (csp : string) (d : forest) (m : node) :
  select CSP_META_SELECTOR d = [m] ->
  exists m', select CSP_META_SELECTOR (snd (addMetaTag csp d)) = [m']
             /\ get_attr "content" (attrs_of m') = Some csp.
Proof.
  intro H.
  destruct (selected_is_matching CSP_META_SELECTOR m d) as (id & name & a & ch & -> & _).
  { rewrite H. now left. }
  rewrite (addMetaTag_existing csp d id name a ch [] H).
  cbn [handles_of fold_left].
  rewrite select_update by apply set_content_unseen_by_meta.
  rewrite H. cbn [map update_node]. rewrite Nat.eqb_refl.
  eexists. split; [reflexivity|].
  cbn [attrs_of set_content set_attr fst]. apply get_put_attr_same.
Qed.

Lemma head_handle_once (d : forest) (k : handle) (name : string) (a : attribs)
    (ch : list node) :
  NoDup (handles d) ->
  In (Element k name a ch) (select HEAD_SELECTOR d) ->
  count_occ Nat.eq_dec (handles d) k = 1.
Proof.
  intros Hnd Hin. apply count_occ_NoDup_In; [assumption|].
  rewrite select_filter in Hin. apply filter_In in Hin as [Hin _].
  apply (elements_handles _ _ Hin). now left.
Qed.

(** No policy meta element and one head: one is made. *)
Lemma addMetaTag_new_one (csp : string) (d : forest) (hd : node) :
  NoDup (handles d) ->
  select CSP_META_SELECTOR d = [] ->
  select HEAD_SELECTOR d = [hd] ->
  length (select CSP_META_SELECTOR (snd (addMetaTag csp d))) = 1.
Proof.
  intros Hnd Hm Hh.
  destruct (selected_is_matching HEAD_SELECTOR hd d) as (k & name & a & ch & -> & _).
  { rewrite Hh. now left. }
  rewrite (addMetaTag_new csp d k name a ch Hm Hh).
  rewrite select_update by apply set_content_unseen_by_meta.
  rewrite length_map, length_select_prepend, Hm.
  rewrite (head_handle_once d k name a ch Hnd) by (rewrite Hh; now left).
  reflexivity.
Qed.

(** ... as the first child of the head. *)
Lemma addMetaTag_new_first_child (csp : string) (d : forest) (k : handle)
    (name : string) (a : attribs) (ch : list node) :
  NoDup (handles d) ->
  select CSP_META_SELECTOR d = [] ->
  select HEAD_SELECTOR d = [Element k name a ch] ->
  select HEAD_SELECTOR (snd (addMetaTag csp d))
  = [Element k name a
       (Element (fresh d) "meta"
          [("http-equiv", "Content-Security-Policy"); ("content", csp)] []
        :: ch)].
Proof.
  intros Hnd Hm Hh.
  assert (Hin : In (Element k name a ch) (elements d)).
  { assert (H : In (Element k name a ch) (select HEAD_SELECTOR d))
      by (rewrite Hh; now left).
    rewrite select_filter in H. now apply filter_In in H. }
  pose proof (elements_NoDup _ _ Hin Hnd) as Hsub.
  cbn [handles_node] in Hsub. apply NoDup_cons_iff in Hsub as [Hk _].
  pose proof (elements_handles _ _ Hin) as Hincl.
  assert (Hlt : k < fresh d) by (apply fresh_above, Hincl; now left).
  assert (Hf : ~ In (fresh d) (flat_map handles_node ch)).
  { intro H. assert (fresh d < fresh d); [|lia].
    apply fresh_above, Hincl. now right. }
  rewrite (addMetaTag_new csp d k name a ch Hm Hh).
  rewrite select_update by apply set_content_unseen_by_head.
  rewrite select_update by apply prepend_meta_unseen_by_head.
  rewrite Hh. cbn [map update_node]. rewrite Nat.eqb_refl.
  cbn [prepend fst snd update_node map].
  assert (E : Nat.eqb k (fresh d) = false) by (apply Nat.eqb_neq; lia).
  rewrite E. unfold new_meta at 1. cbn [update_node map]. rewrite Nat.eqb_refl.
  fold (update k (prepend (new_meta (fresh d))) ch).
  rewrite (update_absent k _ ch Hk).
  fold (update (fresh d) (set_content csp) ch).
  rewrite (update_absent (fresh d) _ ch Hf).
  reflexivity.
Qed.

(** One policy meta element: after the two calls it is still the only one
    and holds the second policy, whatever heads the document has. *)
Lemma addMetaTag_twice_one (d : forest) (p1 p2 : string) :
  length (select CSP_META_SELECTOR d) = 1 ->
  exists m,
    select CSP_META_SELECTOR (snd (addMetaTag p2 (snd (addMetaTag p1 d)))) = [m]
    /\ get_attr "content" (attrs_of m) = Some p2.
Proof.
  intro Hl.
  destruct (select CSP_META_SELECTOR d) as [|m0 [|]] eqn:Hm; try discriminate Hl.
  destruct (addMetaTag_one p1 d m0 Hm) as [m1 [H1 _]].
  now apply (addMetaTag_one p2 _ m1).
Qed.

(** C7, as the code has it.  For every document that has either exactly one
    meta element with http-equiv="Content-Security-Policy", or none and
    exactly one head element (the elements of the document being distinct
    objects), and for all policies [p1] and [p2]: after [addMetaTag p1] and
    then [addMetaTag p2] the document has exactly one such meta element and
    its content is [p2]; when the document had none, the first call creates
    it as the first child of the head, with content [p1]. *)
Theorem addMetaTag_twice_one_meta (d : forest) (p1 p2 : string) :
  length (select CSP_META_SELECTOR d) = 1
  \/ (select CSP_META_SELECTOR d = []
      /\ NoDup (handles d)
      /\ length (select HEAD_SELECTOR d) = 1) ->
  (exists m,
      select CSP_META_SELECTOR (snd (addMetaTag p2 (snd (addMetaTag p1 d)))) = [m]
      /\ get_attr "content" (attrs_of m) = Some p2)
  /\ (select CSP_META_SELECTOR d = [] ->
      exists k name a ch,
        select HEAD_SELECTOR d = [Element k name a ch]
        /\ select HEAD_SELECTOR (snd (addMetaTag p1 d))
           = [Element k name a
                (Element (fresh d) "meta"
                   [("http-equiv", "Content-Security-Policy"); ("content", p1)] []
                 :: ch)]).
Proof.
  intros [Hone | (Hm & Hnd & Hhead)].
  - split; [now apply addMetaTag_twice_one|].
    intro Hm. rewrite Hm in Hone. discriminate Hone.
  - destruct (select HEAD_SELECTOR d) as [|hd [|]] eqn:Hh; try discriminate.
    split.
    + pose proof (addMetaTag_new_one p1 d hd Hnd Hm Hh) as Hl.
      destruct (select CSP_META_SELECTOR (snd (addMetaTag p1 d))) as [|m1 [|]] eqn:E;
        try discriminate Hl.
      exact (addMetaTag_one p2 _ m1 E).
    + intros _.
      destruct (selected_is_matching HEAD_SELECTOR hd d) as (k & name & a & ch & -> & _).
      { rewrite Hh. now left. }
      exists k, name, a, ch. split; [reflexivity|].
      now apply addMetaTag_new_first_child.
Qed.

Lemma addMetaTag_twice_one_meta_witness :
  (length (select CSP_META_SELECTOR page) = 1
   \/ (select CSP_META_SELECTOR page = []
       /\ NoDup (handles page)
       /\ length (select HEAD_SELECTOR page) = 1))
  /\ ((exists m,
          select CSP_META_SELECTOR
            (snd (addMetaTag "script-src 'none';" (snd (addMetaTag "object-src 'none';" page))))
          = [m]
          /\ get_attr "content" (attrs_of m) = Some "script-src 'none';")
      /\ (select CSP_META_SELECTOR page = [] ->
          exists k name a ch,
            select HEAD_SELECTOR page = [Element k name a ch]
            /\ select HEAD_SELECTOR (snd (addMetaTag "object-src 'none';" page))
               = [Element k name a
                    (Element (fresh page) "meta"
                       [("http-equiv", "Content-Security-Policy");
                        ("content", "object-src 'none';")] []
                     :: ch)])).
Proof.
  assert (Hnd : NoDup (handles page)).
  { cbn. repeat constructor; cbn; intuition lia. }
  assert (H : length (select CSP_META_SELECTOR page) = 1
              \/ (select CSP_META_SELECTOR page = []
                  /\ NoDup (handles page)
                  /\ length (select HEAD_SELECTOR page) = 1)).
  { right. split; [reflexivity|]. split; [exact Hnd | reflexivity]. }
  split; [exact H|].
  exact (addMetaTag_twice_one_meta page "object-src 'none';" "script-src 'none';" H).
Defined.

(** C7, as the claim words it, fails.  A document with two policy meta
    elements keeps both after the two calls, each with the latest policy.
    A document with no policy meta element and two heads gets one in each
    head; one with no policy meta element and no head gets none. *)
Lemma addMetaTag_twice_not_one_meta :
  select CSP_META_SELECTOR
    (snd (addMetaTag "p2" (snd (addMetaTag "p1" two_csp_metas))))
  = [Element 3 "meta"
       [("http-equiv", "Content-Security-Policy"); ("content", "p2")] [];
     Element 4 "meta"
       [("http-equiv", "Content-Security-Policy"); ("content", "p2")] []]
  /\ (select CSP_META_SELECTOR two_heads = []
      /\ length (select HEAD_SELECTOR two_heads) = 2
      /\ length (select CSP_META_SELECTOR
                   (snd (addMetaTag "p2" (snd (addMetaTag "p1" two_heads))))) = 2)
  /\ (select CSP_META_SELECTOR headless = []
      /\ select HEAD_SELECTOR headless = []
      /\ select CSP_META_SELECTOR
           (snd (addMetaTag "p2" (snd (addMetaTag "p1" headless)))) = [])
  /\ ~ (forall (d : forest) (p1 p2 : string),
           exists m,
             select CSP_META_SELECTOR (snd (addMetaTag p2 (snd (addMetaTag p1 d))))
             = [m]
             /\ get_attr "content" (attrs_of m) = Some p2).
Proof.
  split; [reflexivity|]. split; [repeat split|]. split; [repeat split|].
  intro H. destruct (H two_csp_metas "p1" "p2") as [m [Hm _]]. discriminate Hm.
Qed.

(** The head counts as well.  With two heads the first call puts a copy of
    the new element, which never gets a content, into the first head and
    the element itself into the second; without a head the new element is
    inserted nowhere and the document stays as it was. *)
Lemma addMetaTag_heads :
  snd (addMetaTag "p1" two_heads)
  = [Element 1 "html" []
       [Element 2 "head" []
          [Element 6 "meta" [("http-equiv", "Content-Security-Policy")] []];
        Element 3 "head" []
          [Element 5 "meta"
             [("http-equiv", "Content-Security-Policy"); ("content", "p1")] []];
        Element 4 "body" [] []]]
  /\ length (select CSP_META_SELECTOR
               (snd (addMetaTag "p2" (snd (addMetaTag "p1" two_heads))))) = 2
  /\ snd (addMetaTag "p2" (snd (addMetaTag "p1" headless))) = headless.
Proof. repeat split. Qed.

(** *** [refactorSourcedScriptsForHashBasedCsp] *)

Lemma strip_cons (script : node) (rest : list node) (d : forest) :
  strip (script :: rest) d
  = (match get_attr "src" (attrs_of script) with
     | Some s => s :: fst (strip rest (match handle_of script with
                                       | Some h => remove h d
                                       | None => d
                                       end))
     | None => fst (strip rest (match handle_of script with
                                | Some h => remove h d
                                | None => d
                                end))
     end,
     snd (strip rest (match handle_of script with
                      | Some h => remove h d
                      | None => d
                      end))).
Proof.
  cbn [strip]. destruct (strip rest _) as [srcs d'].
  cbn [fst snd]. now destruct (get_attr "src" (attrs_of script)).
Qed.

(** The sources come in the order of the selection, the document order. *)
Lemma strip_sources (scripts : list node) (d : forest) :
  fst (strip scripts d) = sources scripts.
Proof.
  revert d. induction scripts as [|script rest IH]; intro d; [reflexivity|].
  rewrite strip_cons. cbn [fst sources flat_map].
  fold (sources rest).
  destruct (get_attr "src" (attrs_of script)); now rewrite IH.
Qed.

(** Every element left by [strip] was in the document and is none of the
    elements handed to [strip]. *)
Lemma strip_elements (scripts : list node) (d : forest) (e' : node) :
  In e' (elements (snd (strip scripts d))) ->
  (forall h, In h (handles_of scripts) -> handle_of e' <> Some h)
  /\ exists e, In e (elements d) /\ label e = label e'.
Proof.
  revert d. induction scripts as [|script rest IH]; intros d He'.
  - split; [intros h []|]. now exists e'.
  - rewrite strip_cons in He'. cbn [snd] in He'.
    apply IH in He' as [Hrest [e [He Hl]]].
    cbn [handles_of].
    destruct (handle_of script) as [h0|].
    + apply remove_elements in He as [Hh0 [e0 [He0 Hl0]]].
      split.
      * intros h [<-|Hh]; [|now apply Hrest].
        rewrite <- (handle_of_label e e' Hl). exact Hh0.
      * exists e0. split; [assumption | congruence].
    + split; [assumption|]. now exists e.
Qed.

(** No script with a src attribute is left. *)
Lemma strip_removes_all (d : forest) :
  select SOURCED_SCRIPT_SELECTOR
    (snd (strip (select SOURCED_SCRIPT_SELECTOR d) d)) = [].
Proof.
  destruct (select _ (snd _)) as [|e' l] eqn:E; [reflexivity|].
  exfalso.
  assert (He' : In e' (select SOURCED_SCRIPT_SELECTOR
                         (snd (strip (select SOURCED_SCRIPT_SELECTOR d) d))))
    by (rewrite E; now left).
  rewrite select_filter in He'. apply filter_In in He' as [He' Hm].
  apply strip_elements in He' as [Hnot [e [He Hl]]].
  assert (Hsel : In e (select SOURCED_SCRIPT_SELECTOR d)).
  { rewrite select_filter. apply filter_In. split; [assumption|].
    now rewrite (matching_label _ e e' Hl). }
  destruct (selected_is_matching _ e d Hsel) as (id & name & a & ch & -> & _).
  apply (Hnot id).
  - now apply (In_handles_of (Element id name a ch)).
  - now rewrite <- (handle_of_label _ e' Hl).
Qed.

(** An element found after [strip] was found before. *)
Lemma strip_select_nil (s : selector) (scripts : list node) (d : forest) :
  select s d = [] -> select s (snd (strip scripts d)) = [].
Proof.
  intro Hd.
  destruct (select s (snd _)) as [|e' l] eqn:E; [reflexivity|].
  exfalso.
  assert (He' : In e' (select s (snd (strip scripts d)))) by (rewrite E; now left).
  rewrite select_filter in He'. apply filter_In in He' as [He' Hm].
  apply strip_elements in He' as [_ [e [He Hl]]].
  assert (Hsel : In e (select s d)).
  { rewrite select_filter. apply filter_In. split; [assumption|].
    now rewrite (matching_label _ e e' Hl). }
  rewrite Hd in Hsel. destruct Hsel.
Qed.

(** In a document without a body the sourced scripts are removed and
    nothing takes their place. *)
Lemma refactor_without_body (d : forest) :
  select BODY_SELECTOR d = [] ->
  refactorSourcedScriptsForHashBasedCsp d
  = (tt, snd (strip (select SOURCED_SCRIPT_SELECTOR d) d))
    /\ select SOURCED_SCRIPT_SELECTOR
         (snd (refactorSourcedScriptsForHashBasedCsp d)) = [].
Proof.
  intro Hb.
  assert (E : refactorSourcedScriptsForHashBasedCsp d
              = (tt, snd (strip (select SOURCED_SCRIPT_SELECTOR d) d))).
  { unfold refactorSourcedScriptsForHashBasedCsp.
    pose proof (strip_select_nil BODY_SELECTOR (select SOURCED_SCRIPT_SELECTOR d) d Hb)
      as Hb'.
    destruct (strip (select SOURCED_SCRIPT_SELECTOR d) d) as [srcs d'].
    cbn [snd] in Hb' |- *.
    destruct (Loader.createLoaderScript _) as [[|c l]|]; try reflexivity.
    rewrite Hb'. reflexivity. }
  split; [exact E|]. rewrite E. cbn [snd]. apply strip_removes_all.
Qed.

(** C5, at the document of the claim.  The two script elements are the
    whole document: there is no body, so both are removed and the loader
    script, made for [a.js] and [b.js], is appended nowhere.  The document
    is left empty. *)
Theorem refactor_two_sourced_scripts_no_body :
  select BODY_SELECTOR two_sourced_scripts = []
  /\ fst (strip (select SOURCED_SCRIPT_SELECTOR two_sourced_scripts)
            two_sourced_scripts)
     = ["a.js"; "b.js"]
  /\ Loader.createLoaderScript ["a.js"; "b.js"] = Some loader_a_b
  /\ refactorSourcedScriptsForHashBasedCsp two_sourced_scripts = (tt, []).
Proof. repeat split. Qed.

(** In a document with a body the same two scripts are replaced by one
    inline script at the end of the body, whose text is the loader for
    [a.js] then [b.js]. *)
Lemma refactor_two_sourced_scripts_in_body :
  refactorSourcedScriptsForHashBasedCsp two_sourced_scripts_in_body
  = (tt,
     [Element 1 "html" []
        [Element 2 "head" [] [];
         Element 3 "body" [] [Element 4 "script" [] [Text loader_a_b]]]]).
Proof. reflexivity. Qed.

(** C6.  In a document without a script element that has a src attribute,
    [refactorSourcedScriptsForHashBasedCsp] changes nothing: no node is
    removed and no script is inserted.  [createLoaderScript] returns no
    script exactly when its source list is empty. *)
Theorem refactor_without_sourced_scripts (d : forest) :
  select SOURCED_SCRIPT_SELECTOR d = [] ->
  refactorSourcedScriptsForHashBasedCsp d = (tt, d)
  /\ forall srcList : list string,
       Loader.createLoaderScript srcList = None <-> srcList = [].
Proof.
  intro H. split.
  - unfold refactorSourcedScriptsForHashBasedCsp. rewrite H. reflexivity.
  - intros [|s l]; split; intro E; try reflexivity; discriminate E.
Qed.

Lemma refactor_without_sourced_scripts_witness :
  select SOURCED_SCRIPT_SELECTOR page = []
  /\ (refactorSourcedScriptsForHashBasedCsp page = (tt, page)
      /\ forall srcList : list string,
           Loader.createLoaderScript srcList = None <-> srcList = []).
Proof.
  split; [reflexivity|].
  apply (refactor_without_sourced_scripts page). reflexivity.
Defined.

(** *** [hashAllInlineScripts] *)

Lemma hash_each_hash (markup : node -> string) (elems : list node) :
  hash_each markup elems
  = Some (map (fun elem => Hasher.hash (or_empty (html markup elem))) elems).
Proof.
  induction elems as [|e l IH]; [reflexivity|].
  cbn [hash_each map]. now rewrite hashInlineObject_hash, IH.
Qed.

Lemma no_src_attribute (a : attribs) :
  negb (existsb (fun kv => String.eqb (fst kv) "src") a)
  = match get_attr "src" a with Some _ => false | None => true end.
Proof.
  induction a as [|[k v] a IH]; [reflexivity|].
  cbn [existsb get_attr fst]. destruct (String.eqb k "src"); [reflexivity | exact IH].
Qed.

(** The selector [script:not([src])] matches the script elements that have
    no attribute named src, and nothing else. *)
Lemma inline_script_selector (n : node) :
  matching INLINE_SCRIPT_SELECTOR n = script_without_src n.
Proof.
  destruct n as [id name a ch| | |]; try reflexivity.
  cbn [matching script_without_src]. unfold matches, INLINE_SCRIPT_SELECTOR.
  cbn [sel_tag sel_test test_attrs]. now rewrite no_src_attribute.
Qed.

(** C8.  [hashAllInlineScripts] returns, for the script elements without a
    src attribute taken in document order, the hash of the content of each,
    and leaves the document as it is: the elements hashed are the elements
    whose tag is [script] and none of whose attributes is named [src], all
    of them and no other.  The content of an element that holds one text
    node is that text as it stands, the content of an element without
    children is the empty string.  For the document
    [<script>alert(1)</script>] the result is the one hash of [alert(1)];
    in a document that also has a script with src, an empty script and a
    style element, the inline script and the empty script are hashed and
    nothing else. *)
Theorem hashAllInlineScripts_hashes_contents (markup : node -> string) (d : forest) :
  hashAllInlineScripts markup d
  = (Some (map (fun elem => Hasher.hash (or_empty (html markup elem)))
             (filter (matching INLINE_SCRIPT_SELECTOR) (elements d))),
     d)
  /\ hashAllInlineScripts markup d
     = (Some (map (fun elem => Hasher.hash (or_empty (html markup elem)))
                (filter script_without_src (elements d))),
        d)
  /\ Forall (fun elem =>
               exists id a ch,
                 elem = Element id "script" a ch /\ get_attr "src" a = None)
       (filter (matching INLINE_SCRIPT_SELECTOR) (elements d))
  /\ (forall id name a text,
         or_empty (html markup (Element id name a [Text text])) = text)
  /\ (forall id name a, or_empty (html markup (Element id name a [])) = "")
  /\ hashAllInlineScripts markup one_inline_script
     = (Some [Hasher.hash "alert(1)"], one_inline_script)
  /\ hashAllInlineScripts markup mixed_scripts
     = (Some [Hasher.hash "alert(1)"; Hasher.hash ""], mixed_scripts).
Proof.
  assert (E : hashAllInlineScripts markup d
              = (Some (map (fun elem => Hasher.hash (or_empty (html markup elem)))
                         (filter (matching INLINE_SCRIPT_SELECTOR) (elements d))),
                 d)).
  { unfold hashAllInlineScripts. now rewrite hash_each_hash, select_filter. }
  split; [exact E|]. split; [|split; [|split; [|split; [|split]]]].
  - rewrite E. do 3 f_equal. apply filter_ext. exact inline_script_selector.
  - apply Forall_forall. intros e He. apply filter_In in He as [_ Hm].
    rewrite inline_script_selector in Hm.
    destruct e as [id name a ch| | |]; try discriminate Hm.
    cbn [script_without_src] in Hm. apply andb_prop in Hm as [Hn Ha].
    apply String.eqb_eq in Hn. subst name.
    exists id, a, ch. split; [reflexivity|].
    rewrite no_src_attribute in Ha. now destruct (get_attr "src" a).
  - intros. cbn. reflexivity.
  - reflexivity.
  - unfold hashAllInlineScripts. rewrite hash_each_hash. reflexivity.
  - unfold hashAllInlineScripts. rewrite hash_each_hash. reflexivity.
Qed.

End RewriterFacts.

(** * Further properties *)

(** ** Policy builder: what does not depend on the options *)

Section PolicyShape.
Import Js Policy.

(** X1.  [getStrictCsp] returns a policy for every combination of given and
    omitted arguments, and a hash list that is omitted gives the policy of
    the empty list. *)
Theorem getStrictCsp_omitted_hashes
    (sh st : option (list string)) (o : option CspOptions) :
  getStrictCsp sh st o
  = getStrictCsp (Some (or_default sh [])) (Some (or_default st [])) o
  /\ getStrictCsp None None o = getStrictCsp (Some []) (Some []) o
  /\ exists policy : string, getStrictCsp sh st o = Some policy.
Proof.
  rewrite !getStrictCsp_spec. repeat split. eexists. reflexivity.
Qed.

(** X2.  Whatever the hashes and the options: the directives are script-src,
    style-src, object-src and base-uri in this order, followed by
    require-trusted-types-for when, and only when, [enableTrustedTypes] is
    set; style-src holds the style hashes and nothing else, object-src is
    ['none'], base-uri is ['self'], and script-src begins with
    ['strict-dynamic'] followed by every script hash in the order given,
    repeated hashes included. *)
Theorem getStrictCsp_fixed_directives
    (sh st : option (list string)) (o : option CspOptions) :
  option_map (map fst) (directives sh st o)
  = Some (["script-src"; "style-src"; "object-src"; "base-uri"]
            ++ (if trustedTypes (effective o)
                then ["require-trusted-types-for"] else []))
  /\ directive_tokens "style-src" sh st o = Some (or_default st [])
  /\ directive_tokens "object-src" sh st o = Some ["'none'"]
  /\ directive_tokens "base-uri" sh st o = Some ["'self'"]
  /\ option_map (firstn (S (length (or_default sh []))))
       (directive_tokens "script-src" sh st o)
     = Some ("'strict-dynamic'" :: or_default sh []).
Proof.
  rewrite !directive_tokens_spec, directives_spec.
  unfold spec_directives.
  split; [cbn [option_map]; now destruct (trustedTypes (effective o))|].
  repeat split.
  cbn [app tokens_of String.eqb Ascii.eqb Bool.eqb option_map].
  unfold spec_script_src. cbn [firstn]. do 2 f_equal.
  rewrite firstn_app, firstn_all, Nat.sub_diag. cbn [firstn].
  now rewrite app_nil_r.
Qed.

End PolicyShape.

(** ** Hasher: a hash is one token *)

Section HashToken.
Import Hasher.

Lemma no_separator_append (s t : string) :
  no_separator (s ++ t) = no_separator s && no_separator t.
Proof.
  induction s as [|c s IH]; [reflexivity|].
  cbn [append no_separator]. rewrite IH. now rewrite andb_assoc.
Qed.

Lemma digit_no_separator (i : Z) : no_separator (Base64.digit i) = true.
Proof.
  unfold Base64.digit. generalize (Z.to_nat i). intro n.
  do 64 (destruct n as [|n]; [reflexivity|]). reflexivity.
Qed.

Lemma encode_no_separator (bs : list Z) : no_separator (Base64.encode bs) = true.
Proof.
  assert (H : forall n l, length l <= n -> no_separator (Base64.encode l) = true).
  { induction n as [|n IH]; intros l Hl.
    - destruct l; [reflexivity | cbn in Hl; lia].
    - destruct l as [|a [|b [|c rest]]]; [reflexivity| | |];
        cbn [Base64.encode]; rewrite !no_separator_append, !digit_no_separator;
        try reflexivity.
      apply IH. cbn [length] in Hl. lia. }
  now apply (H (length bs)).
Qed.

Lemma prefix_append (s t : string) : String.prefix s (s ++ t) = true.
Proof.
  induction s as [|c s IH]; [now destruct t|].
  cbn [append String.prefix]. destruct (ascii_dec c c); [exact IH | congruence].
Qed.

(** X3.  For every text the result of [hashInlineObject] begins with
    ['sha256-] and holds no white space, no semicolon and no comma: put
    into a policy it is one token of one directive. *)
Theorem hashInlineObject_is_one_token (text : string) :
  option_map no_separator (hashInlineObject text) = Some true
  /\ option_map (String.prefix "'sha256-") (hashInlineObject text) = Some true.
Proof.
  rewrite hashInlineObject_hash. cbn [option_map]. unfold hash. split.
  - rewrite !no_separator_append, encode_no_separator. reflexivity.
  - now rewrite prefix_append.
Qed.

End HashToken.

(** ** Loader script: the sources read back *)

Section LoaderRoundTrip.
Import Loader.

Lemma read_in_literal (s cur rest : string) :
  literal_safe s = true ->
  read_sources (InLiteral cur) (s ++ "'" ++ rest)
  = option_map (cons (cur ++ s)%string) (read_sources AfterLiteral rest).
Proof.
  revert cur. induction s as [|c s IH]; intros cur H.
  - cbn [append read_sources Ascii.eqb Bool.eqb]. now rewrite append_empty_r.
  - cbn [literal_safe] in H.
    apply andb_prop in H as [H Hs]. apply andb_prop in H as [H Hl].
    apply andb_prop in H as [Hq Hb].
    apply negb_true_iff in Hq, Hb, Hl.
    cbn [append read_sources]. rewrite Hq, Hb, Hl. cbn [orb].
    rewrite IH by assumption. now rewrite append_assoc.
Qed.

Lemma read_quoted (s rest : string) (st : reading) :
  st = AtStart \/ st = AfterComma ->
  literal_safe s = true ->
  read_sources st (quote s ++ rest)
  = option_map (cons s) (read_sources AfterLiteral rest).
Proof.
  intros Hst H. unfold quote. rewrite !append_assoc.
  transitivity (read_sources (InLiteral "") (s ++ "'" ++ rest)).
  - destruct Hst as [-> | ->]; reflexivity.
  - now rewrite read_in_literal.
Qed.

Lemma read_formatted (srcList : list string) (st : reading) :
  st = AtStart \/ st = AfterComma ->
  srcList <> [] ->
  forallb literal_safe srcList = true ->
  read_sources st (srcListFormatted srcList) = Some srcList.
Proof.
  unfold srcListFormatted, Js.join. revert st.
  induction srcList as [|s l IH]; intros st Hst Hne H; [contradiction|].
  cbn [forallb] in H. apply andb_prop in H as [Hs Hl].
  destruct l as [|s' l'].
  - cbn [map String.concat]. rewrite <- (append_empty_r (quote s)).
    now rewrite read_quoted.
  - change (String.concat "," (map quote (s :: s' :: l')))
      with (quote s ++ "," ++ String.concat "," (map quote (s' :: l')))%string.
    rewrite read_quoted by assumption.
    cbn [append read_sources Ascii.eqb Bool.eqb].
    rewrite IH; [reflexivity | now right | discriminate | assumption].
Qed.

(** X4.  When no source holds a single quote, a backslash or a line end,
    the array literal that [createLoaderScript] writes reads back as the
    list of sources it was given: the same sources, as many, in the same
    order. *)
Theorem createLoaderScript_sources_read_back (srcList : list string) :
  forallb literal_safe srcList = true ->
  read_sources AtStart (srcListFormatted srcList) = Some srcList.
Proof.
  intro H. destruct srcList as [|s l]; [reflexivity|].
  apply read_formatted; [now left | discriminate | assumption].
Qed.

Lemma createLoaderScript_sources_read_back_witness :
  forallb literal_safe ["a.js"; "https://cdn.example/b.js?v=1,2"; ""] = true
  /\ read_sources AtStart
       (srcListFormatted ["a.js"; "https://cdn.example/b.js?v=1,2"; ""])
     = Some ["a.js"; "https://cdn.example/b.js?v=1,2"; ""].
Proof.
  split; [reflexivity|].
  apply (createLoaderScript_sources_read_back
           ["a.js"; "https://cdn.example/b.js?v=1,2"; ""]).
  reflexivity.
Defined.

End LoaderRoundTrip.

(** ** Document tree: elements, handles and attribute maps *)

Section TreeFacts.
Import Dom.

Lemma handles_node_elements (n : node) :
  handles_node n = map handle_or_zero (elements_node n).
Proof.
  induction n as [id name a ch IH| | |] using node_induction; try reflexivity.
  cbn [handles_node elements_node map handle_or_zero]. f_equal.
  induction IH as [|c l Hc _ IHl]; [reflexivity|].
  cbn [flat_map]. now rewrite map_app, Hc, IHl.
Qed.

Lemma handles_elements (d : forest) : handles d = map handle_or_zero (elements d).
Proof.
  unfold handles, elements. induction d as [|n d IH]; [reflexivity|].
  cbn [flat_map]. now rewrite map_app, handles_node_elements, IH.
Qed.

Lemma NoDup_map_injective {A B : Type} (f : A -> B) (l : list A) (x y : A) :
  NoDup (map f l) -> In x l -> In y l -> f x = f y -> x = y.
Proof.
  induction l as [|z l IH]; intros Hnd Hx Hy E; [destruct Hx|].
  cbn [map] in Hnd. apply NoDup_cons_iff in Hnd as [Hz Hnd].
  destruct Hx as [->|Hx], Hy as [->|Hy].
  - reflexivity.
  - exfalso. apply Hz. rewrite E. now apply in_map.
  - exfalso. apply Hz. rewrite <- E. now apply in_map.
  - now apply IH.
Qed.

(** Distinct handles: an element is known by its handle. *)
Lemma same_handle_same_element (d : forest) (e1 e2 : node) :
  NoDup (handles d) ->
  In e1 (elements d) -> In e2 (elements d) ->
  handle_of e1 = handle_of e2 -> e1 = e2.
Proof.
  intros Hnd H1 H2 E. rewrite handles_elements in Hnd.
  apply (NoDup_map_injective handle_or_zero (elements d)); try assumption.
  destruct (elements_are_elements e1 d H1) as (i1 & n1 & a1 & c1 & ->).
  destruct (elements_are_elements e2 d H2) as (i2 & n2 & a2 & c2 & ->).
  cbn in E |- *. congruence.
Qed.

Lemma elements_node_trans (c e r : node) :
  In e (elements_node r) -> In c (elements_node e) -> In c (elements_node r).
Proof.
  revert e c.
  induction r as [id name a ch IH| | |] using node_induction;
    intros e c He Hc; try destruct He.
  - now subst.
  - fold (flat_map elements_node ch) in H.
    apply in_flat_map in H as [x [Hx He]].
    rewrite Forall_forall in IH.
    right. apply in_flat_map. exists x. split; [assumption|].
    now apply (IH x Hx e c).
Qed.

Lemma elements_trans (c e : node) (d : forest) :
  In e (elements d) -> In c (elements_node e) -> In c (elements d).
Proof.
  unfold elements. intros He Hc.
  apply in_flat_map in He as [r [Hr He]].
  apply in_flat_map. exists r. split; [assumption|].
  now apply (elements_node_trans c e r).
Qed.

Lemma selected_in_elements (s : selector) (e : node) (d : forest) :
  In e (select s d) -> In e (elements d).
Proof. rewrite select_filter. intro H. now apply filter_In in H. Qed.

Lemma In_handles_of_inv (h : handle) (ns : list node) :
  In h (handles_of ns) -> exists n, In n ns /\ handle_of n = Some h.
Proof.
  induction ns as [|x ns IH]; intro H; [destruct H|].
  cbn [handles_of] in H. destruct (handle_of x) as [hx|] eqn:E.
  - destruct H as [<-|H].
    + exists x. split; [now left | assumption].
    + destruct (IH H) as [n [Hn Hh]]. exists n. split; [now right | assumption].
  - destruct (IH H) as [n [Hn Hh]]. exists n. split; [now right | assumption].
Qed.

(** *** A run of [attr(k, v)] calls as one map over the attributes *)

Lemma map_attrs_ext (g g' : handle -> attribs -> attribs) (n : node) :
  (forall id a, g id a = g' id a) -> map_attrs g n = map_attrs g' n.
Proof.
  intro E.
  induction n as [id name a ch IH| | |] using node_induction; try reflexivity.
  cbn [map_attrs]. rewrite E. f_equal.
  induction IH as [|c l Hc _ IHl]; [reflexivity|].
  cbn [map]. now rewrite Hc, IHl.
Qed.

Lemma map_attrs_compose (g1 g2 : handle -> attribs -> attribs) (n : node) :
  map_attrs g2 (map_attrs g1 n) = map_attrs (fun id a => g2 id (g1 id a)) n.
Proof.
  induction n as [id name a ch IH| | |] using node_induction; try reflexivity.
  cbn [map_attrs]. f_equal. rewrite map_map.
  induction IH as [|c l Hc _ IHl]; [reflexivity|].
  cbn [map]. now rewrite Hc, IHl.
Qed.

Lemma map_attrs_same (g : handle -> attribs -> attribs) (n : node) :
  (forall id a, g id a = a) -> map_attrs g n = n.
Proof.
  intro E.
  induction n as [id name a ch IH| | |] using node_induction; try reflexivity.
  cbn [map_attrs]. rewrite E. f_equal. now apply map_fixed_Forall.
Qed.

Lemma update_node_set_attr (h : handle) (k v : string) (n : node) :
  update_node h (set_attr k v) n = map_attrs (put_where [h] k v) n.
Proof.
  induction n as [id name a ch IH| | |] using node_induction; try reflexivity.
  cbn [update_node map_attrs set_attr fst snd].
  assert (E : map (update_node h (set_attr k v)) ch
              = map (map_attrs (put_where [h] k v)) ch).
  { induction IH as [|c l Hc _ IHl]; [reflexivity|].
    cbn [map]. now rewrite Hc, IHl. }
  rewrite E.
  change (put_where [h] k v id a)
    with (if Nat.eqb id h || false then put_attr k v a else a).
  rewrite orb_false_r. now destruct (Nat.eqb id h).
Qed.

Lemma put_attr_twice (k v : string) (a : attribs) :
  put_attr k v (put_attr k v a) = put_attr k v a.
Proof.
  induction a as [|[k' v'] a IH]; cbn [put_attr].
  - now rewrite String.eqb_refl.
  - destruct (String.eqb k' k) eqn:E; cbn [put_attr]; rewrite E;
      [reflexivity | now rewrite IH].
Qed.

Lemma put_where_twice (hs : list handle) (k v : string) (id : handle) (a : attribs) :
  put_where hs k v id (put_where hs k v id a) = put_where hs k v id a.
Proof.
  unfold put_where. destruct (existsb (Nat.eqb id) hs); [apply put_attr_twice|reflexivity].
Qed.

Lemma put_where_cons (h : handle) (hs : list handle) (k v : string)
    (id : handle) (a : attribs) :
  put_where hs k v id (put_where [h] k v id a) = put_where (h :: hs) k v id a.
Proof.
  unfold put_where. cbn [existsb]. rewrite orb_false_r.
  destruct (Nat.eqb id h), (existsb (Nat.eqb id) hs); cbn [orb];
    try reflexivity.
  apply put_attr_twice.
Qed.

(** The loop of [attr(k, v)] over a selection. *)
Lemma fold_set_attr (hs : list handle) (k v : string) (d : forest) :
  fold_left (fun d h => update h (set_attr k v) d) hs d
  = map (map_attrs (put_where hs k v)) d.
Proof.
  revert d. induction hs as [|h hs IH]; intro d.
  - cbn [fold_left]. symmetry. apply map_fixed_Forall, Forall_forall.
    intros n _. now apply map_attrs_same.
  - cbn [fold_left]. rewrite IH. unfold update. rewrite map_map.
    apply map_ext. intro n.
    rewrite update_node_set_attr, map_attrs_compose.
    apply map_attrs_ext. intros id a. apply put_where_cons.
Qed.

Lemma handles_map_attrs (g : handle -> attribs -> attribs) (d : forest) :
  handles (map (map_attrs g) d) = handles d.
Proof.
  unfold handles.
  assert (H : forall n, handles_node (map_attrs g n) = handles_node n).
  { intro n.
    induction n as [id name a ch IH| | |] using node_induction; try reflexivity.
    cbn [map_attrs handles_node]. f_equal.
    induction IH as [|c l Hc _ IHl]; [reflexivity|].
    cbn [map flat_map]. now rewrite Hc, IHl. }
  induction d as [|n d IH]; [reflexivity|].
  cbn [map flat_map]. now rewrite H, IH.
Qed.

Lemma select_map_attrs (s : selector) (g : handle -> attribs -> attribs) (d : forest) :
  (forall id name a, matches s name (g id a) = matches s name a) ->
  select s (map (map_attrs g) d) = map (map_attrs g) (select s d).
Proof.
  intro Hg.
  assert (H : forall n, select_node s (map_attrs g n)
                        = map (map_attrs g) (select_node s n)).
  { intro n.
    induction n as [id name a ch IH| | |] using node_induction; try reflexivity.
    apply flat_map_map_Forall in IH.
    cbn [map_attrs select_node]. rewrite Hg, IH, map_app.
    now destruct (matches s name a). }
  unfold select. apply flat_map_map_Forall, Forall_forall. intros n _. apply H.
Qed.

Lemma handles_of_map_attrs (g : handle -> attribs -> attribs) (ns : list node) :
  handles_of (map (map_attrs g) ns) = handles_of ns.
Proof.
  induction ns as [|n ns IH]; [reflexivity|].
  cbn [map handles_of]. rewrite IH. now destruct n.
Qed.

End TreeFacts.

(** ** [addMetaTag]: edge cases and repetition *)

Section MetaTagFacts.
Import Dom Rewriter Documents.

Lemma fresh_not_in (d : forest) : ~ In (fresh d) (handles d).
Proof. intro H. apply fresh_above in H. lia. Qed.

Lemma addMetaTag_no_head (csp : string) (d : forest) :
  select CSP_META_SELECTOR d = [] ->
  select HEAD_SELECTOR d = [] ->
  addMetaTag csp d = (tt, d).
Proof.
  intros Hm Hh. unfold addMetaTag. rewrite Hm, Hh.
  cbn [handles_of length Nat.eqb insert_into fold_left].
  now rewrite (update_absent _ _ _ (fresh_not_in d)).
Qed.

(** X5.  In a document that has neither a policy meta element nor a head,
    [addMetaTag] changes nothing: the meta element it creates is inserted
    nowhere, and the document carries no policy afterwards. *)
Theorem addMetaTag_without_head (csp : string) (d : forest) :
  select CSP_META_SELECTOR d = [] ->
  select HEAD_SELECTOR d = [] ->
  addMetaTag csp d = (tt, d)
  /\ select CSP_META_SELECTOR (snd (addMetaTag csp d)) = [].
Proof.
  intros Hm Hh. rewrite (addMetaTag_no_head csp d Hm Hh). now split.
Qed.

Lemma addMetaTag_without_head_witness :
  select CSP_META_SELECTOR headless = []
  /\ select HEAD_SELECTOR headless = []
  /\ (addMetaTag "script-src 'none';" headless = (tt, headless)
      /\ select CSP_META_SELECTOR (snd (addMetaTag "script-src 'none';" headless)) = []).
Proof.
  split; [reflexivity|]. split; [reflexivity|].
  apply (addMetaTag_without_head "script-src 'none';" headless); reflexivity.
Defined.

Lemma content_unseen_by_meta (hs : list handle) (csp : string)
    (id : handle) (name : string) (a : attribs) :
  matches CSP_META_SELECTOR name (put_where hs "content" csp id a)
  = matches CSP_META_SELECTOR name a.
Proof.
  unfold put_where. destruct (existsb (Nat.eqb id) hs); [|reflexivity].
  unfold matches, CSP_META_SELECTOR. cbn [sel_tag sel_test test_attrs].
  now rewrite get_put_attr_other by reflexivity.
Qed.

(** With a policy meta element in the document, [addMetaTag] is the loop
    that sets [content] on the selection. *)
Lemma addMetaTag_some (csp : string) (d : forest) :
  select CSP_META_SELECTOR d <> [] ->
  snd (addMetaTag csp d)
  = map (map_attrs
           (put_where (handles_of (select CSP_META_SELECTOR d)) "content" csp)) d.
Proof.
  intro Hne.
  destruct (select CSP_META_SELECTOR d) as [|m ms] eqn:Hm; [contradiction|].
  destruct (selected_is_matching CSP_META_SELECTOR m d) as (id & name & a & ch & -> & _).
  { rewrite Hm. now left. }
  rewrite (addMetaTag_existing csp d id name a ch ms Hm).
  unfold set_content. now rewrite fold_set_attr.
Qed.

(** X6.  When the document already has policy meta elements, however many,
    [addMetaTag] creates none: it sets the content attribute of every one of
    them to the policy.  The elements of the document stay the same objects
    and the number of policy meta elements stays the same. *)
Theorem addMetaTag_updates_every_meta (csp : string) (d : forest) :
  select CSP_META_SELECTOR d <> [] ->
  Forall (fun m => get_attr "content" (attrs_of m) = Some csp)
    (select CSP_META_SELECTOR (snd (addMetaTag csp d)))
  /\ length (select CSP_META_SELECTOR (snd (addMetaTag csp d)))
     = length (select CSP_META_SELECTOR d)
  /\ handles (snd (addMetaTag csp d)) = handles d.
Proof.
  intro Hne. rewrite (addMetaTag_some csp d Hne).
  rewrite select_map_attrs by (intros; apply content_unseen_by_meta).
  rewrite length_map, handles_map_attrs.
  split; [|split; reflexivity].
  apply Forall_map, Forall_forall. intros e He.
  destruct (selected_is_matching _ e d He) as (id & name & a & ch & -> & _).
  cbn [map_attrs attrs_of]. unfold put_where.
  assert (Hin : existsb (Nat.eqb id) (handles_of (select CSP_META_SELECTOR d)) = true).
  { apply existsb_exists. exists id. split; [|apply Nat.eqb_refl].
    now apply (In_handles_of (Element id name a ch)). }
  rewrite Hin. apply get_put_attr_same.
Qed.

Lemma addMetaTag_updates_every_meta_witness :
  select CSP_META_SELECTOR two_csp_metas <> []
  /\ (Forall (fun m => get_attr "content" (attrs_of m) = Some "object-src 'none';")
        (select CSP_META_SELECTOR (snd (addMetaTag "object-src 'none';" two_csp_metas)))
      /\ length (select CSP_META_SELECTOR
                   (snd (addMetaTag "object-src 'none';" two_csp_metas)))
         = length (select CSP_META_SELECTOR two_csp_metas)
      /\ handles (snd (addMetaTag "object-src 'none';" two_csp_metas))
         = handles two_csp_metas).
Proof.
  assert (H : select CSP_META_SELECTOR two_csp_metas <> []) by (cbn; discriminate).
  split; [exact H|].
  exact (addMetaTag_updates_every_meta "object-src 'none';" two_csp_metas H).
Defined.

Lemma update_set_content_twice (h : handle) (csp : string) (d : forest) :
  update h (set_content csp) (update h (set_content csp) d)
  = update h (set_content csp) d.
Proof.
  unfold update, set_content. rewrite map_map. apply map_ext. intro n.
  rewrite !update_node_set_attr, map_attrs_compose.
  apply map_attrs_ext. intros id a. apply put_where_twice.
Qed.

(** X7.  In a document with at most one head, whose elements are distinct
    objects, a second [addMetaTag] with the same policy changes nothing. *)
Theorem addMetaTag_same_policy_again (csp : string) (d : forest) :
  NoDup (handles d) ->
  length (select HEAD_SELECTOR d) <= 1 ->
  snd (addMetaTag csp (snd (addMetaTag csp d))) = snd (addMetaTag csp d).
Proof.
  intros Hnd Hhead.
  destruct (select CSP_META_SELECTOR d) as [|m ms] eqn:Hm.
  - destruct (select HEAD_SELECTOR d) as [|hd [|]] eqn:Hh.
    + pose proof (addMetaTag_no_head csp d Hm Hh) as E.
      rewrite E. cbn [snd]. now rewrite E.
    + destruct (selected_is_matching HEAD_SELECTOR hd d) as (k & name & a & ch & -> & _).
      { rewrite Hh. now left. }
      pose proof (addMetaTag_new_first_child csp d k name a ch Hnd Hm Hh) as Hfirst.
      pose proof (addMetaTag_new_one csp d _ Hnd Hm Hh) as Hone.
      set (d1 := snd (addMetaTag csp d)) in *.
      set (m' := Element (fresh d) "meta"
                   [("http-equiv", "Content-Security-Policy"); ("content", csp)] []) in *.
      assert (Hin : In m' (select CSP_META_SELECTOR d1)).
      { rewrite select_filter. apply filter_In. split; [|reflexivity].
        apply (elements_trans m' (Element k name a (m' :: ch)) d1).
        - apply (selected_in_elements HEAD_SELECTOR). rewrite Hfirst. now left.
        - right. cbn [flat_map]. apply in_or_app. left. now left. }
      destruct (select CSP_META_SELECTOR d1) as [|x [|]] eqn:Hsel; try discriminate Hone.
      destruct Hin as [->|[]].
      rewrite (addMetaTag_existing csp d1 _ _ _ _ [] Hsel).
      cbn [handles_of fold_left]. subst d1.
      rewrite (addMetaTag_new csp d k name a ch Hm Hh).
      apply update_set_content_twice.
    + cbn [length] in Hhead. lia.
  - assert (Hne : select CSP_META_SELECTOR d <> []) by (rewrite Hm; discriminate).
    rewrite (addMetaTag_some csp d Hne).
    set (G := put_where (handles_of (select CSP_META_SELECTOR d)) "content" csp).
    assert (Hsel : select CSP_META_SELECTOR (map (map_attrs G) d)
                   = map (map_attrs G) (select CSP_META_SELECTOR d))
      by (apply select_map_attrs; intros; apply content_unseen_by_meta).
    rewrite addMetaTag_some by (rewrite Hsel, Hm; discriminate).
    rewrite Hsel, handles_of_map_attrs. fold G.
    rewrite map_map. apply map_ext. intro n.
    rewrite map_attrs_compose. apply map_attrs_ext. intros id a.
    apply put_where_twice.
Qed.

Lemma addMetaTag_same_policy_again_witness :
  NoDup (handles page)
  /\ length (select HEAD_SELECTOR page) <= 1
  /\ snd (addMetaTag "object-src 'none';" (snd (addMetaTag "object-src 'none';" page)))
     = snd (addMetaTag "object-src 'none';" page).
Proof.
  assert (Hnd : NoDup (handles page)).
  { cbn. repeat constructor; cbn; intuition lia. }
  assert (Hh : length (select HEAD_SELECTOR page) <= 1) by (cbn; lia).
  split; [exact Hnd|]. split; [exact Hh|].
  exact (addMetaTag_same_policy_again "object-src 'none';" page Hnd Hh).
Defined.

End MetaTagFacts.

(** ** The hashes and the meta tag *)

Section HashesKept.
Import Dom Rewriter Documents.

Variable markup : node -> string.

Lemma content_of_children (e : node) :
  or_empty (html markup e) = Js.join "" (map (render markup) (children_of e)).
Proof. destruct e; reflexivity. Qed.

Lemma hash_each_shapes (l1 l2 : list node) :
  map shape l1 = map shape l2 -> hash_each markup l1 = hash_each markup l2.
Proof.
  intro E. rewrite !hash_each_hash. f_equal.
  assert (H : forall l, map (fun elem => Hasher.hash (or_empty (html markup elem))) l
                        = map (fun sh => Hasher.hash
                                 (Js.join "" (map (render markup) (snd sh))))
                            (map shape l)).
  { intro l. rewrite map_map. apply map_ext. intro e.
    now rewrite content_of_children. }
  now rewrite !H, E.
Qed.

Lemma update_texts (h : handle) (f : change) (ch : list node) :
  forallb is_text ch = true -> map (update_node h f) ch = ch.
Proof.
  induction ch as [|c ch IH]; intro H; [reflexivity|].
  cbn [forallb] in H. apply andb_prop in H as [Hc Hch].
  cbn [map]. rewrite IH by assumption. now destruct c.
Qed.

Lemma update_node_other (h : handle) (f : change) (e : node) :
  text_only e = true -> handle_of e <> Some h -> update_node h f e = e.
Proof.
  destruct e as [id name a ch| | |]; try reflexivity.
  unfold text_only. cbn [children_of handle_of update_node]. intros Ht Hh.
  rewrite update_texts by assumption.
  destruct (Nat.eqb id h) eqn:E; [|reflexivity].
  apply Nat.eqb_eq in E. congruence.
Qed.

Lemma map_attrs_texts (g : handle -> attribs -> attribs) (ch : list node) :
  forallb is_text ch = true -> map (map_attrs g) ch = ch.
Proof.
  induction ch as [|c ch IH]; intro H; [reflexivity|].
  cbn [forallb] in H. apply andb_prop in H as [Hc Hch].
  cbn [map]. rewrite IH by assumption. now destruct c.
Qed.

Lemma shape_map_attrs (g : handle -> attribs -> attribs) (e : node) :
  text_only e = true -> shape (map_attrs g e) = shape e.
Proof.
  destruct e as [id name a ch| | |]; try reflexivity.
  unfold text_only, shape. cbn [children_of handle_of map_attrs]. intro Ht.
  now rewrite map_attrs_texts.
Qed.

(** What holds of the shapes of one list holds of a list with the same
    shapes. *)
Lemma shapes_transfer (P : option handle * list node -> Prop) (l1 l2 : list node) :
  map shape l1 = map shape l2 ->
  (forall e, In e l2 -> P (shape e)) ->
  forall e, In e l1 -> P (shape e).
Proof.
  intros E H e He.
  apply (in_map shape) in He. rewrite E in He.
  apply in_map_iff in He as [e2 [<- He2]]. now apply H.
Qed.

Section OneSelector.

Variable s : selector.
Hypothesis content_unseen :
  forall name v a, matches s name (put_attr "content" v a) = matches s name a.
Hypothesis meta_unseen : forall id, select_node s (new_meta id) = [].

(** Setting [content] on any elements keeps the shapes of the elements of
    [s] that hold text only. *)
Lemma set_content_shapes (hs : list handle) (csp : string) (d : forest) :
  (forall e, In e (select s d) -> text_only e = true) ->
  map shape (select s (fold_left (fun d h => update h (set_content csp) d) hs d))
  = map shape (select s d).
Proof.
  intro Ht. unfold set_content. rewrite fold_set_attr.
  rewrite select_map_attrs.
  - rewrite map_map. apply map_ext_in. intros e He.
    apply shape_map_attrs. now apply Ht.
  - intros id name a. unfold put_where.
    destruct (existsb (Nat.eqb id) hs); [apply content_unseen | reflexivity].
Qed.

Lemma prepend_meta_unseen (id : handle) : unseen_by s (prepend (new_meta id)).
Proof.
  intros a ch. split; [reflexivity|].
  unfold select. cbn [prepend snd flat_map]. now rewrite meta_unseen.
Qed.

(** Inserting the meta element into elements whose handles are those of
    none of the elements of [s] keeps these elements as they are. *)
Lemma insert_meta_shapes (ks : list handle) (id : handle) (d : forest) :
  (forall e, In e (select s d) ->
     text_only e = true /\ forall k, In k ks -> handle_of e <> Some k) ->
  map shape (select s (insert_into prepend ks (new_meta id) d))
  = map shape (select s d).
Proof.
  revert d. induction ks as [|k ks IH]; intros d H; [reflexivity|].
  assert (Hstep : forall m, select s (update k (prepend (new_meta m)) d) = select s d).
  { intro m. rewrite select_update by apply prepend_meta_unseen.
    apply map_fixed_Forall, Forall_forall. intros e He.
    destruct (H e He) as [Ht Hk].
    apply update_node_other; [assumption | apply Hk; now left]. }
  cbn [insert_into]. destruct ks as [|k' ks'].
  - now rewrite Hstep.
  - change (clone ?i (new_meta id)) with (new_meta i).
    rewrite IH.
    + now rewrite Hstep.
    + rewrite Hstep. intros e He. destruct (H e He) as [Ht Hk].
      split; [assumption|]. intros k0 Hk0. apply Hk. now right.
Qed.

Hypothesis not_head : sel_tag s <> "head".

Lemma selected_not_head (d : forest) (e : node) (k : handle) :
  NoDup (handles d) ->
  In e (select s d) ->
  In k (handles_of (select HEAD_SELECTOR d)) ->
  handle_of e <> Some k.
Proof.
  intros Hnd He Hk E.
  apply In_handles_of_inv in Hk as [hd [Hhd Hh]].
  assert (e = hd).
  { apply (same_handle_same_element d); try assumption.
    - now apply (selected_in_elements s).
    - now apply (selected_in_elements HEAD_SELECTOR).
    - congruence. }
  subst hd.
  destruct (selected_is_matching s e d He) as (id & name & a & ch & -> & Hs).
  destruct (selected_is_matching HEAD_SELECTOR _ d Hhd) as (? & ? & ? & ? & E' & Hm).
  injection E' as <- <- <- <-.
  unfold matches in Hs, Hm. apply andb_prop in Hs as [Hs _].
  apply andb_prop in Hm as [Hm _].
  apply String.eqb_eq in Hs, Hm. cbn [sel_tag HEAD_SELECTOR] in Hm.
  apply not_head. congruence.
Qed.

Lemma addMetaTag_keeps_shapes (csp : string) (d : forest) :
  NoDup (handles d) ->
  forallb text_only (select s d) = true ->
  map shape (select s (snd (addMetaTag csp d))) = map shape (select s d).
Proof.
  intros Hnd Ht. rewrite forallb_forall in Ht.
  unfold addMetaTag.
  destruct (length (handles_of (select CSP_META_SELECTOR d)) =? 0)%nat.
  - cbn [snd].
    assert (E : map shape (select s (insert_into prepend
                                       (handles_of (select HEAD_SELECTOR d))
                                       (new_meta (fresh d)) d))
                = map shape (select s d)).
    { apply insert_meta_shapes. intros e He. split; [now apply Ht|].
      intros k Hk. now apply (selected_not_head d). }
    rewrite set_content_shapes; [exact E|].
    intros e He.
    change ((fun sh => forallb is_text (snd sh) = true) (shape e)).
    apply (shapes_transfer _ _ _ E); [|assumption].
    intros e2 He2. now apply Ht.
  - cbn [snd]. now apply set_content_shapes.
Qed.

End OneSelector.

(** X8.  In a document whose elements are distinct objects and whose inline
    script and style elements hold text only, [addMetaTag] changes none of
    the hashes: [hashAllInlineScripts] and [hashAllInlineStyles] return after
    the call what they returned before it, so a policy built from the hashes
    taken before the meta element was added still fits the document. *)
Theorem addMetaTag_keeps_hashes (csp : string) (d : forest) :
  NoDup (handles d) ->
  forallb text_only (select INLINE_SCRIPT_SELECTOR d) = true ->
  forallb text_only (select INLINE_STYLE_SELECTOR d) = true ->
  inline_script_hashes markup (snd (addMetaTag csp d)) = inline_script_hashes markup d
  /\ inline_style_hashes markup (snd (addMetaTag csp d)) = inline_style_hashes markup d.
Proof.
  intros Hnd Hs Hst.
  unfold inline_script_hashes, inline_style_hashes,
    hashAllInlineScripts, hashAllInlineStyles. cbn [fst].
  split; apply hash_each_shapes, addMetaTag_keeps_shapes;
    try assumption; try reflexivity; try discriminate.
  - intros name v a. unfold matches, INLINE_SCRIPT_SELECTOR.
    cbn [sel_tag sel_test test_attrs].
    now rewrite get_put_attr_other by reflexivity.
  - intros name v a. unfold matches, INLINE_STYLE_SELECTOR.
    cbn [sel_tag sel_test test_attrs].
    now rewrite get_put_attr_other by reflexivity.
Qed.

End HashesKept.

Lemma addMetaTag_keeps_hashes_witness :
  NoDup (Dom.handles Documents.page)
  /\ forallb Dom.text_only
       (Dom.select Rewriter.INLINE_SCRIPT_SELECTOR Documents.page) = true
  /\ forallb Dom.text_only
       (Dom.select Rewriter.INLINE_STYLE_SELECTOR Documents.page) = true
  /\ (Rewriter.inline_script_hashes (fun _ => "")
        (snd (Rewriter.addMetaTag "object-src 'none';" Documents.page))
      = Rewriter.inline_script_hashes (fun _ => "") Documents.page
      /\ Rewriter.inline_style_hashes (fun _ => "")
           (snd (Rewriter.addMetaTag "object-src 'none';" Documents.page))
         = Rewriter.inline_style_hashes (fun _ => "") Documents.page).
Proof.
  assert (Hnd : NoDup (Dom.handles Documents.page)).
  { cbn. repeat constructor; cbn; intuition lia. }
  split; [exact Hnd|]. split; [reflexivity|]. split; [reflexivity|].
  exact (addMetaTag_keeps_hashes (fun _ => "") "object-src 'none';" Documents.page
           Hnd eq_refl eq_refl).
Defined.

(** ** [refactorSourcedScriptsForHashBasedCsp]: what is removed, what is
    inserted *)

Section RefactorFacts.
Import Dom Rewriter Documents.

Lemma append_script_unseen (s : selector) (id : handle) (text : string) :
  select_node s (new_script id text) = [] ->
  unseen_by s (append (new_script id text)).
Proof.
  intros H a ch. split; [reflexivity|].
  cbn [append snd]. rewrite select_app. unfold select at 2.
  cbn [flat_map]. now rewrite H, !app_nil_r.
Qed.

(** Appending the new script finds no element of a selector that does not
    match it. *)
Lemma insert_script_select (s : selector) (ts : list handle) (id : handle)
    (text : string) (d : forest) :
  (forall i, select_node s (new_script i text) = []) ->
  length (select s (insert_into append ts (new_script id text) d))
  = length (select s d).
Proof.
  intro H. revert d. induction ts as [|t ts IH]; intro d; [reflexivity|].
  cbn [insert_into]. destruct ts as [|t' ts'].
  - rewrite select_update by (apply append_script_unseen, H).
    apply length_map.
  - change (clone ?i (new_script id text)) with (new_script i text).
    rewrite IH, select_update by (apply append_script_unseen, H).
    apply length_map.
Qed.

Lemma refactor_no_sourced_left (d : forest) :
  select SOURCED_SCRIPT_SELECTOR (snd (refactorSourcedScriptsForHashBasedCsp d)) = [].
Proof.
  unfold refactorSourcedScriptsForHashBasedCsp.
  pose proof (strip_removes_all d) as H.
  destruct (strip (select SOURCED_SCRIPT_SELECTOR d) d) as [srcs d'].
  cbn [snd] in H.
  destruct (Loader.createLoaderScript _) as [[|c l]|]; cbn [snd]; try exact H.
  apply length_zero_iff_nil.
  rewrite insert_script_select by reflexivity. now rewrite H.
Qed.

(** X9.  After [refactorSourcedScriptsForHashBasedCsp], whatever the
    document, no script element with a src attribute is left: the script
    elements of the document are exactly those that [hashAllInlineScripts]
    hashes. *)
Theorem refactor_leaves_inline_scripts_only (d : forest) :
  select SOURCED_SCRIPT_SELECTOR (snd (refactorSourcedScriptsForHashBasedCsp d)) = []
  /\ select SCRIPT_SELECTOR (snd (refactorSourcedScriptsForHashBasedCsp d))
     = select INLINE_SCRIPT_SELECTOR (snd (refactorSourcedScriptsForHashBasedCsp d)).
Proof.
  pose proof (refactor_no_sourced_left d) as H.
  split; [exact H|].
  set (d2 := snd (refactorSourcedScriptsForHashBasedCsp d)) in *.
  rewrite !select_filter. apply filter_ext_in. intros e He.
  destruct (elements_are_elements e d2 He) as (id & name & a & ch & ->).
  cbn [matching]. unfold matches, SCRIPT_SELECTOR, INLINE_SCRIPT_SELECTOR.
  cbn [sel_tag sel_test test_attrs].
  destruct (String.eqb name "script") eqn:En; [|reflexivity].
  destruct (get_attr "src" a) as [v|] eqn:Ea; [|reflexivity].
  exfalso.
  assert (Hin : In (Element id name a ch) (select SOURCED_SCRIPT_SELECTOR d2)).
  { rewrite select_filter. apply filter_In. split; [assumption|].
    cbn [matching]. unfold matches, SOURCED_SCRIPT_SELECTOR.
    cbn [sel_tag sel_test test_attrs]. now rewrite En, Ea. }
  rewrite H in Hin. destruct Hin.
Qed.

(** *** A removal that takes no element of a selector along *)

Lemma remove_node_pruned (h : handle) (r e' : node) :
  In e' (elements (remove_node h r)) ->
  exists e, In e (elements_node r) /\ remove_node h e = [e'].
Proof.
  revert e'.
  induction r as [id name a ch IH| | |] using node_induction; intros e' He';
    try (cbn in He'; contradiction).
  cbn [remove_node] in He'.
  destruct (Nat.eqb id h) eqn:E; [destruct He'|].
  unfold elements in He'. cbn [flat_map elements_node] in He'.
  rewrite app_nil_r in He'.
  destruct He' as [<-|He'].
  - exists (Element id name a ch). split; [now left|].
    cbn [remove_node]. now rewrite E.
  - apply in_flat_map in He' as [c' [Hc' He']].
    apply in_flat_map in Hc' as [c [Hc Hc']].
    rewrite Forall_forall in IH.
    destruct (IH c Hc e') as [e [He Hr]].
    { unfold elements. apply in_flat_map. now exists c'. }
    exists e. split; [|assumption].
    right. apply in_flat_map. now exists c.
Qed.

Lemma remove_pruned (h : handle) (d : forest) (e' : node) :
  In e' (elements (remove h d)) ->
  exists e, In e (elements d) /\ remove_node h e = [e'].
Proof.
  unfold remove. intro He'. unfold elements in He'.
  apply in_flat_map in He' as [c' [Hc' He']].
  apply in_flat_map in Hc' as [r [Hr Hc']].
  destruct (remove_node_pruned h r e') as [e [He Hrm]].
  { unfold elements. apply in_flat_map. now exists c'. }
  exists e. split; [|assumption].
  unfold elements. apply in_flat_map. now exists r.
Qed.

Lemma remove_node_handle (h : handle) (e e' : node) :
  remove_node h e = [e'] -> handle_of e' = handle_of e.
Proof.
  destruct e as [id name a ch| | |]; cbn [remove_node]; intro H;
    try (injection H as <-; reflexivity).
  destruct (Nat.eqb id h); [discriminate H|]. now injection H as <-.
Qed.

Lemma select_remove_node_nil (s : selector) (h : handle) (e : node) :
  select_node s e = [] -> select s (remove_node h e) = [].
Proof.
  intro H.
  destruct (select s (remove_node h e)) as [|x l] eqn:E; [reflexivity|].
  exfalso.
  assert (Hx : In x (select s (remove_node h e))) by (rewrite E; now left).
  rewrite select_filter in Hx. apply filter_In in Hx as [Hx Hm].
  apply remove_node_elements in Hx as [_ [e0 [He0 Hl]]].
  assert (Hin : In e0 (select_node s e)).
  { rewrite select_node_filter. apply filter_In. split; [assumption|].
    now rewrite (matching_label s e0 x Hl). }
  rewrite H in Hin. destruct Hin.
Qed.

Lemma length_select_remove_node (s : selector) (h : handle) (r : node) :
  (forall e, In e (elements_node r) -> handle_of e = Some h -> select_node s e = []) ->
  length (select s (remove_node h r)) = length (select_node s r).
Proof.
  induction r as [id name a ch IH| | |] using node_induction; intro H;
    try reflexivity.
  cbn [remove_node].
  destruct (Nat.eqb id h) eqn:E.
  - apply Nat.eqb_eq in E. subst id.
    rewrite (H (Element h name a ch)); [reflexivity | now left | reflexivity].
  - unfold select. cbn [flat_map select_node]. rewrite app_nil_r, !length_app.
    assert (Hch : forall c, In c ch ->
              length (select s (remove_node h c)) = length (select_node s c)).
    { rewrite Forall_forall in IH. intros c Hc. apply (IH c Hc).
      intros e He Hh. apply H; [|assumption].
      right. apply in_flat_map. now exists c. }
    f_equal; [now destruct (matches s name a)|].
    clear IH H. induction ch as [|c ch IHch]; [reflexivity|].
    change (flat_map (remove_node h) (c :: ch))
      with (remove_node h c ++ flat_map (remove_node h) ch).
    change (flat_map (select_node s) (c :: ch))
      with (select_node s c ++ flat_map (select_node s) ch).
    rewrite flat_map_app, !length_app.
    rewrite IHch by (intros c' Hc'; apply Hch; now right).
    f_equal. apply Hch. now left.
Qed.

Lemma length_select_remove (s : selector) (h : handle) (d : forest) :
  (forall e, In e (elements d) -> handle_of e = Some h -> select_node s e = []) ->
  length (select s (remove h d)) = length (select s d).
Proof.
  unfold remove, select. intro H.
  induction d as [|r d IH]; [reflexivity|].
  change (flat_map (remove_node h) (r :: d))
    with (remove_node h r ++ flat_map (remove_node h) d).
  change (flat_map (select_node s) (r :: d))
    with (select_node s r ++ flat_map (select_node s) d).
  rewrite flat_map_app, !length_app.
  rewrite IH.
  - f_equal. apply length_select_remove_node. intros e He. apply H.
    unfold elements. cbn [flat_map]. apply in_or_app. now left.
  - intros e He. apply H. unfold elements. cbn [flat_map].
    apply in_or_app. now right.
Qed.

Lemma clear_of_remove (s : selector) (hs : list handle) (h0 : handle) (d : forest) :
  clear_of s hs d -> clear_of s hs (remove h0 d).
Proof.
  intros H e' h He' Hh Hhe'.
  apply remove_pruned in He' as [e [He Hrm]].
  pose proof (select_remove_node_nil s h0 e) as Hnil.
  rewrite Hrm in Hnil. unfold select in Hnil. cbn [flat_map] in Hnil.
  rewrite app_nil_r in Hnil. apply Hnil.
  apply (H e h); try assumption.
  now rewrite <- (remove_node_handle h0 e e' Hrm).
Qed.

Lemma length_select_strip (s : selector) (scripts : list node) (d : forest) :
  clear_of s (handles_of scripts) d ->
  length (select s (snd (strip scripts d))) = length (select s d).
Proof.
  revert d. induction scripts as [|script rest IH]; intros d H; [reflexivity|].
  rewrite strip_cons. cbn [snd]. cbn [handles_of] in H.
  destruct (handle_of script) as [h|].
  - rewrite IH.
    + apply length_select_remove. intros e He Hh. apply (H e h); try assumption.
      now left.
    + apply clear_of_remove. intros e k He Hk. apply H; [assumption | now right].
  - now apply IH.
Qed.

(** *** One body, outside the sourced scripts *)

Lemma filter_all {A : Type} (l : list A) : filter (fun _ => true) l = l.
Proof. induction l as [|x l IH]; [reflexivity | cbn; now rewrite IH]. Qed.

(** One source for each script of the selection. *)
Lemma sources_length (d : forest) :
  length (sources (select SOURCED_SCRIPT_SELECTOR d))
  = length (select SOURCED_SCRIPT_SELECTOR d).
Proof.
  assert (H : forall l,
            (forall e, In e l -> exists v, get_attr "src" (attrs_of e) = Some v) ->
            length (sources l) = length l).
  { induction l as [|e l IH]; intro Hl; [reflexivity|].
    cbn [sources flat_map]. fold (sources l).
    destruct (Hl e (or_introl eq_refl)) as [v ->].
    cbn [app length]. f_equal. apply IH. intros e' He'. apply Hl. now right. }
  apply H. intros e He.
  destruct (selected_is_matching _ e d He) as (id & name & a & ch & -> & Hm).
  unfold matches, SOURCED_SCRIPT_SELECTOR in Hm.
  cbn [sel_tag sel_test test_attrs] in Hm.
  apply andb_prop in Hm as [_ Hm]. cbn [attrs_of].
  destruct (get_attr "src" a) as [v|]; [now exists v | discriminate Hm].
Qed.

Lemma loader_of_sources (v : string) (rest : list string) :
  exists c l, Loader.createLoaderScript (v :: rest) = Some (String c l).
Proof.
  unfold Loader.createLoaderScript, Loader.template_head, Loader.LF.
  cbn [length Nat.eqb append]. eexists. eexists. reflexivity.
Qed.

Lemma refactor_body_shape (d : forest) (body : node) :
  NoDup (handles d) ->
  select BODY_SELECTOR d = [body] ->
  forallb (holds_no BODY_SELECTOR) (select SOURCED_SCRIPT_SELECTOR d) = true ->
  select SOURCED_SCRIPT_SELECTOR d <> [] ->
  exists b name a ch loader,
    label body = Some (b, name, a)
    /\ Loader.createLoaderScript (sources (select SOURCED_SCRIPT_SELECTOR d))
       = Some loader
    /\ select BODY_SELECTOR (snd (strip (select SOURCED_SCRIPT_SELECTOR d) d))
       = [Element b name a ch]
    /\ snd (refactorSourcedScriptsForHashBasedCsp d)
       = update b
           (append (new_script
                      (fresh (snd (strip (select SOURCED_SCRIPT_SELECTOR d) d)))
                      loader))
           (snd (strip (select SOURCED_SCRIPT_SELECTOR d) d)).
Proof.
  intros Hnd Hbody Hout Hne.
  set (scripts := select SOURCED_SCRIPT_SELECTOR d) in *.
  assert (Hclear : clear_of BODY_SELECTOR (handles_of scripts) d).
  { intros e h He Hh Hhe.
    apply In_handles_of_inv in Hh as [script [Hs Hhs]].
    assert (e = script).
    { apply (same_handle_same_element d); try assumption.
      - now apply (selected_in_elements SOURCED_SCRIPT_SELECTOR).
      - congruence. }
    subst e. rewrite forallb_forall in Hout. specialize (Hout script Hs).
    unfold holds_no in Hout.
    now destruct (select_node BODY_SELECTOR script). }
  pose proof (length_select_strip BODY_SELECTOR scripts d Hclear) as Hlen.
  rewrite Hbody in Hlen. cbn [length] in Hlen.
  destruct (select BODY_SELECTOR (snd (strip scripts d))) as [|e' [|]] eqn:Hb';
    try discriminate Hlen.
  assert (He' : In e' (select BODY_SELECTOR (snd (strip scripts d))))
    by (rewrite Hb'; now left).
  destruct (selected_is_matching _ e' _ He') as (b & name & a & ch & -> & Hm).
  assert (Hlabel : label body = Some (b, name, a)).
  { apply selected_in_elements in He'.
    apply strip_elements in He' as [_ [e [He Hl]]].
    assert (Hin : In e (select BODY_SELECTOR d)).
    { rewrite select_filter. apply filter_In. split; [assumption|].
      now rewrite (matching_label _ e _ Hl). }
    rewrite Hbody in Hin. destruct Hin as [->|[]]. exact Hl. }
  pose proof (sources_length d) as Hsl. fold scripts in Hsl.
  destruct (sources scripts) as [|v rest] eqn:Hsrc.
  { destruct scripts; [contradiction | discriminate Hsl]. }
  destruct (loader_of_sources v rest) as (c & l & Hloader).
  exists b, name, a, ch, (String c l).
  split; [exact Hlabel|]. split; [exact Hloader|]. split; [reflexivity|].
  unfold refactorSourcedScriptsForHashBasedCsp. fold scripts.
  pose proof (strip_sources scripts d) as Hfst.
  destruct (strip scripts d) as [srcs d'] eqn:Hstrip.
  cbn [fst snd] in Hfst, Hb' |- *. subst srcs.
  rewrite filter_all, Hsrc, Hloader, Hb'. reflexivity.
Qed.

(** X11.  In a document whose elements are distinct objects, with one body
    that lies in no script with a src attribute, and with at least one such
    script: after [refactorSourcedScriptsForHashBasedCsp] the document still
    has this one body, and the last child of the body is a new script
    element without attributes whose text is the loader script for the src
    attributes of the removed scripts, one for each script, in document
    order. *)
Theorem refactor_appends_loader_to_body (d : forest) (body : node) :
  NoDup (handles d) ->
  select BODY_SELECTOR d = [body] ->
  forallb (holds_no BODY_SELECTOR) (select SOURCED_SCRIPT_SELECTOR d) = true ->
  select SOURCED_SCRIPT_SELECTOR d <> [] ->
  exists b name a ch id loader,
    label body = Some (b, name, a)
    /\ Loader.createLoaderScript (sources (select SOURCED_SCRIPT_SELECTOR d))
       = Some loader
    /\ length (sources (select SOURCED_SCRIPT_SELECTOR d))
       = length (select SOURCED_SCRIPT_SELECTOR d)
    /\ select BODY_SELECTOR (snd (refactorSourcedScriptsForHashBasedCsp d))
       = [Element b name a (ch ++ [Element id "script" [] [Text loader]])].
Proof.
  intros Hnd Hbody Hout Hne.
  destruct (refactor_body_shape d body Hnd Hbody Hout Hne)
    as (b & name & a & ch & loader & Hl & Hloader & Hb' & Hd2).
  eexists b, name, a, _, _, loader.
  split; [exact Hl|]. split; [exact Hloader|]. split; [apply sources_length|].
  rewrite Hd2, select_update by (now apply append_script_unseen).
  rewrite Hb'. cbn [map update_node]. rewrite Nat.eqb_refl.
  cbn [append fst snd]. reflexivity.
Qed.

Lemma refactor_appends_loader_to_body_witness :
  NoDup (handles two_sourced_scripts_in_body)
  /\ select BODY_SELECTOR two_sourced_scripts_in_body
     = [Element 3 "body" []
          [Element 4 "script" [("src", "a.js")] [];
           Element 5 "script" [("src", "b.js")] []]]
  /\ forallb (holds_no BODY_SELECTOR)
       (select SOURCED_SCRIPT_SELECTOR two_sourced_scripts_in_body) = true
  /\ select SOURCED_SCRIPT_SELECTOR two_sourced_scripts_in_body <> []
  /\ exists b name a ch id loader,
       label (Element 3 "body" []
                [Element 4 "script" [("src", "a.js")] [];
                 Element 5 "script" [("src", "b.js")] []])
       = Some (b, name, a)
       /\ Loader.createLoaderScript
            (sources (select SOURCED_SCRIPT_SELECTOR two_sourced_scripts_in_body))
          = Some loader
       /\ length (sources (select SOURCED_SCRIPT_SELECTOR two_sourced_scripts_in_body))
          = length (select SOURCED_SCRIPT_SELECTOR two_sourced_scripts_in_body)
       /\ select BODY_SELECTOR
            (snd (refactorSourcedScriptsForHashBasedCsp two_sourced_scripts_in_body))
          = [Element b name a (ch ++ [Element id "script" [] [Text loader]])].
Proof.
  assert (Hnd : NoDup (handles two_sourced_scripts_in_body)).
  { cbn. repeat constructor; cbn; intuition lia. }
  assert (Hne : select SOURCED_SCRIPT_SELECTOR two_sourced_scripts_in_body <> [])
    by (cbn; discriminate).
  split; [exact Hnd|]. split; [reflexivity|]. split; [reflexivity|].
  split; [exact Hne|].
  exact (refactor_appends_loader_to_body two_sourced_scripts_in_body _
           Hnd eq_refl eq_refl Hne).
Defined.

(** X12.  Under the same conditions the hash of the loader script is among
    the hashes that [hashAllInlineScripts] returns for the document after
    [refactorSourcedScriptsForHashBasedCsp]. *)
Theorem refactor_loader_is_hashed (markup : node -> string) (d : forest) (body : node) :
  NoDup (handles d) ->
  select BODY_SELECTOR d = [body] ->
  forallb (holds_no BODY_SELECTOR) (select SOURCED_SCRIPT_SELECTOR d) = true ->
  select SOURCED_SCRIPT_SELECTOR d <> [] ->
  exists loader hashes,
    Loader.createLoaderScript (sources (select SOURCED_SCRIPT_SELECTOR d))
    = Some loader
    /\ inline_script_hashes markup (snd (refactorSourcedScriptsForHashBasedCsp d))
       = Some hashes
    /\ In (Hasher.hash loader) hashes.
Proof.
  intros Hnd Hbody Hout Hne.
  destruct (refactor_body_shape d body Hnd Hbody Hout Hne)
    as (b & name & a & ch & loader & Hl & Hloader & Hb' & Hd2).
  set (d' := snd (strip (select SOURCED_SCRIPT_SELECTOR d) d)) in *.
  set (ns := new_script (fresh d') loader) in *.
  set (d2 := snd (refactorSourcedScriptsForHashBasedCsp d)) in *.
  assert (Hsel : select BODY_SELECTOR d2
                 = [Element b name a (map (update_node b (append ns)) ch ++ [ns])]).
  { rewrite Hd2, select_update by (now apply append_script_unseen).
    rewrite Hb'. cbn [map update_node]. rewrite Nat.eqb_refl. reflexivity. }
  assert (Hns : In ns (select INLINE_SCRIPT_SELECTOR d2)).
  { rewrite select_filter. apply filter_In. split; [|reflexivity].
    apply (elements_trans ns
             (Element b name a (map (update_node b (append ns)) ch ++ [ns])) d2).
    - apply (selected_in_elements BODY_SELECTOR). rewrite Hsel. now left.
    - right. apply in_flat_map. exists ns. split.
      + apply in_or_app. right. now left.
      + now left. }
  exists loader. eexists. split; [exact Hloader|].
  unfold inline_script_hashes, hashAllInlineScripts. cbn [fst].
  rewrite hash_each_hash. split; [reflexivity|].
  apply in_map_iff. exists ns. split; [|exact Hns].
  subst ns. cbn. reflexivity.
Qed.

Lemma refactor_loader_is_hashed_witness :
  NoDup (handles two_sourced_scripts_in_body)
  /\ select BODY_SELECTOR two_sourced_scripts_in_body
     = [Element 3 "body" []
          [Element 4 "script" [("src", "a.js")] [];
           Element 5 "script" [("src", "b.js")] []]]
  /\ forallb (holds_no BODY_SELECTOR)
       (select SOURCED_SCRIPT_SELECTOR two_sourced_scripts_in_body) = true
  /\ select SOURCED_SCRIPT_SELECTOR two_sourced_scripts_in_body <> []
  /\ exists loader hashes,
       Loader.createLoaderScript
         (sources (select SOURCED_SCRIPT_SELECTOR two_sourced_scripts_in_body))
       = Some loader
       /\ inline_script_hashes (fun _ => "")
            (snd (refactorSourcedScriptsForHashBasedCsp two_sourced_scripts_in_body))
          = Some hashes
       /\ In (Hasher.hash loader) hashes.
Proof.
  assert (Hnd : NoDup (handles two_sourced_scripts_in_body)).
  { cbn. repeat constructor; cbn; intuition lia. }
  assert (Hne : select SOURCED_SCRIPT_SELECTOR two_sourced_scripts_in_body <> [])
    by (cbn; discriminate).
  split; [exact Hnd|]. split; [reflexivity|]. split; [reflexivity|].
  split; [exact Hne|].
  exact (refactor_loader_is_hashed (fun _ => "") two_sourced_scripts_in_body _
           Hnd eq_refl eq_refl Hne).
Defined.

(** X10.  In a document without a body, whatever else it holds,
    [refactorSourcedScriptsForHashBasedCsp] removes the scripts that have a
    src attribute and inserts nothing in their place: none of them is left,
    and every element of the document afterwards is an element it had
    before. *)
Theorem refactor_without_body_only_removes (d : forest) :
  select BODY_SELECTOR d = [] ->
  select SOURCED_SCRIPT_SELECTOR
    (snd (refactorSourcedScriptsForHashBasedCsp d)) = []
  /\ Forall (fun e' => exists e, In e (elements d) /\ label e = label e')
       (elements (snd (refactorSourcedScriptsForHashBasedCsp d))).
Proof.
  intro Hb. destruct (refactor_without_body d Hb) as [E Hnone].
  split; [exact Hnone|].
  rewrite E. cbn [snd]. apply Forall_forall. intros e' He'.
  now apply strip_elements in He' as [_ He'].
Qed.

Lemma refactor_without_body_only_removes_witness :
  select BODY_SELECTOR two_sourced_scripts = []
  /\ (select SOURCED_SCRIPT_SELECTOR
        (snd (refactorSourcedScriptsForHashBasedCsp two_sourced_scripts)) = []
      /\ Forall (fun e' => exists e,
                   In e (elements two_sourced_scripts) /\ label e = label e')
           (elements (snd (refactorSourcedScriptsForHashBasedCsp two_sourced_scripts)))).
Proof.
  split; [reflexivity|].
  apply (refactor_without_body_only_removes two_sourced_scripts). reflexivity.
Defined.

(** *** [hashAllInlineStyles] *)

(** X13.  [hashAllInlineStyles] returns, for the style elements without an
    href attribute taken in document order, the hash of the content of each,
    and leaves the document as it is; nothing but such style elements is
    hashed. *)
Theorem hashAllInlineStyles_hashes_contents (markup : node -> string) (d : forest) :
  hashAllInlineStyles markup d
  = (Some (map (fun elem => Hasher.hash (or_empty (html markup elem)))
             (filter (matching INLINE_STYLE_SELECTOR) (elements d))),
     d)
  /\ Forall (fun elem =>
               exists id a ch,
                 elem = Element id "style" a ch /\ get_attr "href" a = None)
       (filter (matching INLINE_STYLE_SELECTOR) (elements d)).
Proof.
  split.
  - unfold hashAllInlineStyles. now rewrite hash_each_hash, select_filter.
  - apply Forall_forall. intros e He. rewrite <- select_filter in He.
    destruct (selected_is_matching _ e d He) as (id & name & a & ch & -> & Hm).
    unfold matches, INLINE_STYLE_SELECTOR in Hm.
    cbn [sel_tag sel_test test_attrs] in Hm.
    apply andb_prop in Hm as [Hn Ha]. apply String.eqb_eq in Hn. subst name.
    exists id, a, ch. split; [reflexivity|].
    now destruct (get_attr "href" a).
Qed.

End RefactorFacts.
